(** * ASN.1 encoder: directive parser and encoding engine

    A shallow embedding of [options.go] (the directive grammar parser and
    its validation) and of [encode.go] (the recursive value-to-TLV encoder),
    with the properties of the specification stated and proved over it. *)

From Stdlib Require Import ZArith List Bool Ascii String Lia Permutation Sorted.
Import ListNotations.

Local Open Scope string_scope.
Local Open Scope Z_scope.

(* ================================================================= *)
(** ** Go run-time types ([reflect.Kind], [reflect.Type]) *)

(** [reflect.Kind], in the order of the Go declaration. *)
Inductive Kind : Type :=
| Invalid | Bool | Int | Int8 | Int16 | Int32 | Int64
| Uint | Uint8 | Uint16 | Uint32 | Uint64 | Uintptr
| Float32 | Float64 | Complex64 | Complex128
| Array | Chan | Func | Interface | Map | Pointer | Slice
| String_ | Struct | UnsafePointer.

Definition Kind_eqb (a b : Kind) : bool :=
  match a, b with
  | Invalid, Invalid | Bool, Bool | Int, Int | Int8, Int8 | Int16, Int16
  | Int32, Int32 | Int64, Int64 | Uint, Uint | Uint8, Uint8
  | Uint16, Uint16 | Uint32, Uint32 | Uint64, Uint64 | Uintptr, Uintptr
  | Float32, Float32 | Float64, Float64 | Complex64, Complex64
  | Complex128, Complex128 | Array, Array | Chan, Chan | Func, Func
  | Interface, Interface | Map, Map | Pointer, Pointer | Slice, Slice
  | String_, String_ | Struct, Struct | UnsafePointer, UnsafePointer => true
  | _, _ => false
  end.

(** A [reflect.Type]: its name (what [Type.String()] prints), its kind and,
    for arrays and slices, its element type. Two types are the same type
    when the three agree. *)
Inductive rtype : Type :=
| TBase (name : string) (kind : Kind)
| TSeq (name : string) (kind : Kind) (elem : rtype).

Definition type_name (t : rtype) : string :=
  match t with TBase n _ | TSeq n _ _ => n end.
Definition type_kind (t : rtype) : Kind :=
  match t with TBase _ k | TSeq _ k _ => k end.
Definition Elem (t : rtype) : option rtype :=
  match t with TBase _ _ => None | TSeq _ _ e => Some e end.

Fixpoint rtype_eqb (a b : rtype) : bool :=
  match a, b with
  | TBase n1 k1, TBase n2 k2 => String.eqb n1 n2 && Kind_eqb k1 k2
  | TSeq n1 k1 e1, TSeq n2 k2 e2 =>
      String.eqb n1 n2 && Kind_eqb k1 k2 && rtype_eqb e1 e2
  | _, _ => false
  end.

(* ================================================================= *)
(** ** Errors and results *)

(** An argument of a format string. *)
Inductive fmtArg : Type :=
| ArgS (s : string)
| ArgD (z : Z)
| ArgT (t : rtype).

(** The errors of the package. [syntaxError(format, args...)] is kept with
    its format and arguments apart. A [LookupError] is what the choice and
    variant tables of the context answer for a missing entry. *)
Inductive error : Type :=
| SyntaxError (format : string) (args : list fmtArg)
| LookupError (msg : string).

Definition syntaxError (format : string) (args : list fmtArg) : error :=
  SyntaxError format args.

(** What a Go call yields: a value with a nil error, a non-nil error, a
    run-time panic (nil dereference, a [reflect] call on a value of the
    wrong kind), or no answer within the recursion budget. *)
Inductive result (A : Type) : Type :=
| Ok (a : A)
| Err (e : error)
| Panic
| OutOfFuel.

Arguments Ok {A} a.
Arguments Err {A} e.
Arguments Panic {A}.
Arguments OutOfFuel {A}.

Definition bind {A B : Type} (r : result A) (k : A -> result B) : result B :=
  match r with
  | Ok a => k a
  | Err e => Err e
  | Panic => Panic
  | OutOfFuel => OutOfFuel
  end.

Notation "x <- e ;; k" := (bind e (fun x => k))
  (at level 61, e at next level, right associativity).

(** Runs [f] over a list from left to right and stops at the first call
    that does not return a value. *)
Fixpoint mapM {A B : Type} (f : A -> result B) (l : list A) : result (list B) :=
  match l with
  | [] => Ok []
  | a :: l' => b <- f a ;; bs <- mapM f l' ;; Ok (b :: bs)
  end.

(* ================================================================= *)
(** ** The Go string functions the parser calls *)

Definition byte_in (c : ascii) (l : list ascii) : bool :=
  existsb (Ascii.eqb c) l.

(** [unicode.IsSpace] on the UTF-8 encodings of its members: the six ASCII
    characters, U+0085 and U+00A0 (two bytes), and U+1680, U+2000 to U+200A,
    U+2028, U+2029, U+202F, U+205F and U+3000 (three bytes). *)
Definition asciiSpace (c : ascii) : bool :=
  byte_in c ["009"; "010"; "011"; "012"; "013"; " "]%char.

Definition space2 (c d : ascii) : bool :=
  Ascii.eqb c "194" && byte_in d ["133"; "160"]%char.

Definition space3 (c d e : ascii) : bool :=
  (Ascii.eqb c "225" && Ascii.eqb d "154" && Ascii.eqb e "128")
  || (Ascii.eqb c "226" && Ascii.eqb d "128" &&
      ((128 <=? nat_of_ascii e)%nat && (nat_of_ascii e <=? 138)%nat
       || byte_in e ["168"; "169"; "175"]%char))
  || (Ascii.eqb c "226" && Ascii.eqb d "129" && Ascii.eqb e "159")
  || (Ascii.eqb c "227" && Ascii.eqb d "128" && Ascii.eqb e "128").

(** [strings.TrimLeftFunc(s, unicode.IsSpace)]. *)
Fixpoint TrimLeft (s : string) : string :=
  match s with
  | EmptyString => EmptyString
  | String c r =>
      if asciiSpace c then TrimLeft r
      else
        match r with
        | String d r2 =>
            if space2 c d then TrimLeft r2
            else
              match r2 with
              | String e r3 => if space3 c d e then TrimLeft r3 else s
              | EmptyString => s
              end
        | EmptyString => s
        end
  end.

(** The same from the end, on the reversed bytes: a rune is decoded
    backwards from its last byte. *)
Fixpoint trimRev (s : list ascii) : list ascii :=
  match s with
  | [] => []
  | c :: r =>
      if asciiSpace c then trimRev r
      else
        match r with
        | d :: r2 =>
            if space2 d c then trimRev r2
            else
              match r2 with
              | e :: r3 => if space3 e d c then trimRev r3 else s
              | [] => s
              end
        | [] => s
        end
  end.

Definition TrimRight (s : string) : string :=
  string_of_list_ascii (rev (trimRev (rev (list_ascii_of_string s)))).

(** [strings.TrimSpace]. *)
Definition TrimSpace (s : string) : string := TrimRight (TrimLeft s).

(** [strings.Split(s, sep)] for a separator of one byte, the only use the
    parser makes of it: the pieces of [s] between the separators, a single
    piece when there is none. *)
Fixpoint Split (s : string) (sep : ascii) : list string :=
  match s with
  | EmptyString => [EmptyString]
  | String c r =>
      if Ascii.eqb c sep then EmptyString :: Split r sep
      else
        match Split r sep with
        | h :: t => String c h :: t
        | [] => [String c EmptyString]
        end
  end.

Definition isDigit (c : ascii) : bool :=
  ((48 <=? nat_of_ascii c) && (nat_of_ascii c <=? 57))%nat.

Fixpoint digits (s : string) (acc : Z) : option Z :=
  match s with
  | EmptyString => Some acc
  | String c r =>
      if isDigit c then digits r (acc * 10 + (Z.of_nat (nat_of_ascii c) - 48))
      else None
  end.

(** [strconv.Atoi] with a 64-bit [int]: an optional sign, at least one
    decimal digit, nothing else, and a value that fits. [None] is its
    error. *)
Definition Atoi (s : string) : option Z :=
  match s with
  | EmptyString => None
  | String c r =>
      let neg := Ascii.eqb c "-" in
      let body := if Ascii.eqb c "-" || Ascii.eqb c "+" then r else s in
      match body with
      | EmptyString => None
      | _ =>
          match digits body 0 with
          | None => None
          | Some n =>
              let z := if neg then - n else n in
              if (- 2 ^ 63 <=? z) && (z <=? 2 ^ 63 - 1) then Some z else None
          end
      end
  end.

(* ================================================================= *)
(** ** options.go *)

Record fieldOptions : Type := mkOptions {
  universal : bool;
  application : bool;
  explicit : bool;
  indefinite : bool;
  optional : bool;
  unique : bool;
  set : bool;
  tag : option Z;
  defaultValue : option Z;
  choice : option string;
  choices : option string;
  variant : option string
}.

(** [var opts fieldOptions]: the zero value. *)
Definition zeroOptions : fieldOptions :=
  mkOptions false false false false false false false None None None None None.

Definition set_universal (b : bool) (o : fieldOptions) : fieldOptions :=
  mkOptions b (application o) (explicit o) (indefinite o) (optional o) (unique o)
    (set o) (tag o) (defaultValue o) (choice o) (choices o) (variant o).
Definition set_application (b : bool) (o : fieldOptions) : fieldOptions :=
  mkOptions (universal o) b (explicit o) (indefinite o) (optional o) (unique o)
    (set o) (tag o) (defaultValue o) (choice o) (choices o) (variant o).
Definition set_explicit (b : bool) (o : fieldOptions) : fieldOptions :=
  mkOptions (universal o) (application o) b (indefinite o) (optional o) (unique o)
    (set o) (tag o) (defaultValue o) (choice o) (choices o) (variant o).
Definition set_indefinite (b : bool) (o : fieldOptions) : fieldOptions :=
  mkOptions (universal o) (application o) (explicit o) b (optional o) (unique o)
    (set o) (tag o) (defaultValue o) (choice o) (choices o) (variant o).
Definition set_optional (b : bool) (o : fieldOptions) : fieldOptions :=
  mkOptions (universal o) (application o) (explicit o) (indefinite o) b (unique o)
    (set o) (tag o) (defaultValue o) (choice o) (choices o) (variant o).
Definition set_unique (b : bool) (o : fieldOptions) : fieldOptions :=
  mkOptions (universal o) (application o) (explicit o) (indefinite o) (optional o) b
    (set o) (tag o) (defaultValue o) (choice o) (choices o) (variant o).
Definition set_set (b : bool) (o : fieldOptions) : fieldOptions :=
  mkOptions (universal o) (application o) (explicit o) (indefinite o) (optional o)
    (unique o) b (tag o) (defaultValue o) (choice o) (choices o) (variant o).
Definition set_tag (v : option Z) (o : fieldOptions) : fieldOptions :=
  mkOptions (universal o) (application o) (explicit o) (indefinite o) (optional o)
    (unique o) (set o) v (defaultValue o) (choice o) (choices o) (variant o).
Definition set_defaultValue (v : option Z) (o : fieldOptions) : fieldOptions :=
  mkOptions (universal o) (application o) (explicit o) (indefinite o) (optional o)
    (unique o) (set o) (tag o) v (choice o) (choices o) (variant o).
Definition set_choice (v : option string) (o : fieldOptions) : fieldOptions :=
  mkOptions (universal o) (application o) (explicit o) (indefinite o) (optional o)
    (unique o) (set o) (tag o) (defaultValue o) v (choices o) (variant o).
Definition set_choices (v : option string) (o : fieldOptions) : fieldOptions :=
  mkOptions (universal o) (application o) (explicit o) (indefinite o) (optional o)
    (unique o) (set o) (tag o) (defaultValue o) (choice o) v (variant o).
Definition set_variant (v : option string) (o : fieldOptions) : fieldOptions :=
  mkOptions (universal o) (application o) (explicit o) (indefinite o) (optional o)
    (unique o) (set o) (tag o) (defaultValue o) (choice o) (choices o) v.

(** [validate] returns an error if any option is invalid, [None] for nil. *)
Definition validate (opts : fieldOptions) : option error :=
  let tagError (class : string) :=
    syntaxError "'tag' must be specified when '%s' is used" [ArgS class] in
  if universal opts && match tag opts with None => true | Some _ => false end
  then Some (tagError "universal")
  else if application opts && match tag opts with None => true | Some _ => false end
  then Some (tagError "application")
  else
    match tag opts with
    | Some t =>
        if t <? 0 then Some (syntaxError "'tag' cannot be negative: %d" [ArgD t])
        else
          match choice opts with
          | Some c =>
              if String.eqb c "" then Some (syntaxError "'choice' cannot be empty" [])
              else None
          | None => None
          end
    | None =>
        match choice opts with
        | Some c =>
            if String.eqb c "" then Some (syntaxError "'choice' cannot be empty" [])
            else None
        | None => None
        end
    end.

(** [parseBoolOption] just checks that no arguments were given. *)
Definition parseBoolOption (args : list string) : result bool :=
  if (1 <? List.length args)%nat
  then Err (syntaxError "option '%s' does not have arguments."
              [ArgS (hd "" args)])
  else Ok true.

(** [parseIntOption] parses an integer argument. *)
Definition parseIntOption (args : list string) : result (option Z) :=
  match args with
  | [a0; a1] =>
      match Atoi a1 with
      | Some num => Ok (Some num)
      | None => Err (syntaxError "invalid value '%s' for option '%s'."
                       [ArgS a1; ArgS a0])
      end
  | _ => Err (syntaxError "option does not have arguments." [])
  end.

(** [parseStringOption] parses a string argument. *)
Definition parseStringOption (args : list string) : result (option string) :=
  match args with
  | [_; a1] => Ok (Some a1)
  | _ => Err (syntaxError "option does not have arguments." [])
  end.

(** [parseOption] parses a single option into [opts]. The Go function
    writes the field even when the helper fails; [parseOptions] then drops
    the whole option set, so only the error is kept here. *)
Definition parseOption (opts : fieldOptions) (args : list string)
  : result fieldOptions :=
  match args with
  | [] => Panic
  | a0 :: _ =>
      if String.eqb a0 "" then Ok opts
      else if String.eqb a0 "universal" then
        b <- parseBoolOption args ;; Ok (set_universal b opts)
      else if String.eqb a0 "application" then
        b <- parseBoolOption args ;; Ok (set_application b opts)
      else if String.eqb a0 "explicit" then
        b <- parseBoolOption args ;; Ok (set_explicit b opts)
      else if String.eqb a0 "indefinite" then
        b <- parseBoolOption args ;; Ok (set_indefinite b opts)
      else if String.eqb a0 "optional" then
        b <- parseBoolOption args ;; Ok (set_optional b opts)
      else if String.eqb a0 "unique" then
        b <- parseBoolOption args ;; Ok (set_unique b opts)
      else if String.eqb a0 "set" then
        b <- parseBoolOption args ;; Ok (set_set b opts)
      else if String.eqb a0 "tag" then
        v <- parseIntOption args ;; Ok (set_tag v opts)
      else if String.eqb a0 "default" then
        v <- parseIntOption args ;; Ok (set_defaultValue v opts)
      else if String.eqb a0 "choice" then
        v <- parseStringOption args ;; Ok (set_choice v opts)
      else if String.eqb a0 "choices" then
        v <- parseStringOption args ;; Ok (set_choices v opts)
      else if String.eqb a0 "variant" then
        v <- parseStringOption args ;; Ok (set_variant v opts)
      else Err (syntaxError "Invalid option: %s" [ArgS a0])
  end.

(** The loop of [parseOptions] over the tokens. *)
Fixpoint parseTokens (opts : fieldOptions) (tokens : list string)
  : result fieldOptions :=
  match tokens with
  | [] => Ok opts
  | token :: rest =>
      let args := Split (TrimSpace token) ":" in
      opts' <- parseOption opts args ;;
      parseTokens opts' rest
  end.

(** [parseOptions] returns a parsed [fieldOptions] or an error, and
    [Ok None] (a nil pointer) for the ignore tag. *)
Definition parseOptions (s : string) : result (option fieldOptions) :=
  if String.eqb s "-" then Ok None
  else
    opts <- parseTokens zeroOptions (Split s ",") ;;
    match validate opts with
    | Some err => Err err
    | None => Ok (Some opts)
    end.

(** [strconv.Itoa]: the decimal digits, least significant first into the
    accumulator, after a minus sign for a negative number. Twenty digits
    cover a 64-bit [int]. *)
Definition digitChar (d : Z) : ascii := ascii_of_nat (48 + Z.to_nat d).

Fixpoint utoa (fuel : nat) (n : Z) (acc : string) : string :=
  match fuel with
  | O => acc
  | S fuel' =>
      let acc' := String (digitChar (n mod 10)) acc in
      if n <? 10 then acc' else utoa fuel' (n / 10) acc'
  end.

Definition Itoa (i : Z) : string :=
  if i <? 0 then String "-" (utoa 20 (- i) "") else utoa 20 i "".

(** [strings.Join(elems, sep)]. *)
Fixpoint Join (elems : list string) (sep : string) : string :=
  match elems with
  | [] => ""
  | [a] => a
  | a :: rest => a ++ sep ++ Join rest sep
  end.

(** [(opts *fieldOptions) String()]: the options back as a directive
    string. [defaultValue] is not printed. *)
Definition fieldOptions_String (opts : fieldOptions) : string :=
  let result : list string := [] in
  let result := if universal opts then (result ++ ["universal"])%list else result in
  let result :=
    if application opts then (result ++ ["application"])%list else result in
  let result := if explicit opts then (result ++ ["explicit"])%list else result in
  let result :=
    if indefinite opts then (result ++ ["indefinite"])%list else result in
  let result := if optional opts then (result ++ ["optional"])%list else result in
  let result := if unique opts then (result ++ ["unique"])%list else result in
  let result := if set opts then (result ++ ["set"])%list else result in
  let result :=
    match tag opts with
    | Some t => (result ++ [("tag:" ++ Itoa t)%string])%list
    | None => result
    end in
  let result :=
    match choice opts with
    | Some c => (result ++ [("choice:" ++ c)%string])%list
    | None => result
    end in
  let result :=
    match choices opts with
    | Some c => (result ++ [("choices:" ++ c)%string])%list
    | None => result
    end in
  let result :=
    match variant opts with
    | Some v => (result ++ [("variant:" ++ v)%string])%list
    | None => result
    end in
  Join result ",".

(* ================================================================= *)
(** ** Go run-time values ([reflect.Value]) *)

(** A [reflect.StructField]: its name and the directive string that
    [Tag.Get(tagKey)] returns for it. *)
Record StructField : Type := mkField {
  Name : string;
  Tag_Get : string
}.

#[warnings="-register-all"]
Inductive Value : Type :=
| VInvalid                        (* the zero [reflect.Value], [ValueOf(nil)] *)
| VBool (t : rtype) (b : bool)
| VInt (t : rtype) (i : Z)        (* the signed and the unsigned kinds *)
| VString (t : rtype) (s : string)
| VStruct (t : rtype) (fields : list (StructField * Value))
| VList (t : rtype) (isNil : bool) (elems : list Value)  (* array or slice *)
| VIface (t : rtype) (dyn : Value)   (* of interface kind; [dyn] is
                                        [VInvalid] for a nil interface *)
| VOther (t : rtype) (isZero : bool). (* floats, pointers, maps, ...: type
                                        and emptiness are all that is read *)

(** [value.IsValid()]. *)
Definition IsValid (v : Value) : bool :=
  match v with VInvalid => false | _ => true end.

(** [value.Type()]; it panics on the zero [Value]. *)
Definition Type_ (v : Value) : result rtype :=
  match v with
  | VInvalid => Panic
  | VBool t _ | VInt t _ | VString t _ | VStruct t _ | VList t _ _
  | VIface t _ | VOther t _ => Ok t
  end.

(** [value.String()]: the string itself for a value of kind [String], and
    the type between angle brackets for every other value. *)
Definition Value_String (v : Value) : string :=
  match v with
  | VInvalid => "<invalid Value>"
  | VString t s =>
      if Kind_eqb (type_kind t) String_ then s
      else "<" ++ type_name t ++ " Value>"
  | VBool t _ | VInt t _ | VStruct t _ | VList t _ _ | VIface t _
  | VOther t _ => "<" ++ type_name t ++ " Value>"
  end.

(** [value.Interface()]: the value as an [interface{}], that is the dynamic
    value when [value] is itself of interface kind. *)
Definition Interface_ (v : Value) : Value :=
  match v with VIface _ dyn => dyn | _ => v end.

(** [reflect.ValueOf(obj)] of an [interface{}] given by its dynamic value. *)
Definition ValueOf (obj : Value) : Value := obj.

(** [value.NumField()] and [value.Field(i)], [value.Type().Field(i)]: they
    panic on a value that is not a struct. *)
Definition Fields (v : Value) : result (list (StructField * Value)) :=
  match v with VStruct _ fs => Ok fs | _ => Panic end.

(** [value.Len()] and [value.Index(i)]. *)
Definition Elems (v : Value) : result (list Value) :=
  match v with VList _ _ es => Ok es | _ => Panic end.

(** [reflect.DeepEqual(value.Interface(), reflect.Zero(value.Type()).Interface())]:
    false, zero and the empty string; a struct or an array of zero values;
    a nil slice (an empty one that is not nil differs); a nil interface. *)
Fixpoint DeepEqual_Zero (v : Value) : bool :=
  match v with
  | VInvalid => true
  | VBool _ b => negb b
  | VInt _ i => i =? 0
  | VString _ s => String.eqb s ""
  | VStruct _ fs => forallb (fun f => DeepEqual_Zero (snd f)) fs
  | VList t isNil es =>
      if Kind_eqb (type_kind t) Array then forallb DeepEqual_Zero es else isNil
  | VIface _ dyn => negb (IsValid dyn)
  | VOther _ z => z
  end.

(* ================================================================= *)
(** ** TLV nodes and what of the package lives outside encode.go *)

Record rawValue : Type := mkRaw {
  Class : Z;
  Tag : Z;
  Constructed : bool;
  Indefinite : bool;
  Content : list Byte.byte
}.

(** [&rawValue{}]. *)
Definition zeroRaw : rawValue := mkRaw 0 0 false false [].

Definition set_Class (c : Z) (r : rawValue) : rawValue :=
  mkRaw c (Tag r) (Constructed r) (Indefinite r) (Content r).
Definition set_Tag (t : Z) (r : rawValue) : rawValue :=
  mkRaw (Class r) t (Constructed r) (Indefinite r) (Content r).
Definition set_Constructed (b : bool) (r : rawValue) : rawValue :=
  mkRaw (Class r) (Tag r) b (Indefinite r) (Content r).
Definition set_Indefinite (b : bool) (r : rawValue) : rawValue :=
  mkRaw (Class r) (Tag r) (Constructed r) b (Content r).
Definition set_Content (c : list Byte.byte) (r : rawValue) : rawValue :=
  mkRaw (Class r) (Tag r) (Constructed r) (Indefinite r) c.

(** Modelled from the spec: the class and universal tag constants, which
    the package declares outside the two files at hand; the spec names the
    classes and the "canonical universal tags", whose numbers X.690 fixes. *)
Definition classUniversal : Z := 0.
Definition classApplication : Z := 1.
Definition classContextSpecific : Z := 2.
Definition classPrivate : Z := 3.

Definition tagBoolean : Z := 1.
Definition tagInteger : Z := 2.
Definition tagBitString : Z := 3.
Definition tagOctetString : Z := 4.
Definition tagNull : Z := 5.
Definition tagOid : Z := 6.
Definition tagObjDescriptor : Z := 7.
Definition tagReal : Z := 9.
Definition tagEnum : Z := 10.
Definition tagUTF8String : Z := 12.
Definition tagSequence : Z := 16.
Definition tagSet : Z := 17.
Definition tagUtcTime : Z := 23.

(** [uint(i)] for an [int] on 64 bits. *)
Definition uint (i : Z) : Z := i mod 2 ^ 64.

(** An entry of a choice table and an entry of a variant table. *)
Record choiceEntry : Type := mkChoice {
  entry_class : Z;
  entry_tag : Z;
  entry_opts : fieldOptions
}.

Record variantEntry : Type := mkVariant {
  elem_opts : fieldOptions
}.

Definition encoderFunction : Type := Value -> result (list Byte.byte).

(** What encode.go uses of the package and is declared in other files: the
    designated types, [getActualType], [raw.encode()] (on a pointer
    that may be nil) and [sort.Sort] over a [rawValueSlice]. *)
Record Package : Type := mkPackage {
  bigIntType : rtype;
  bitStringType : rtype;
  oidType : rtype;
  objDescriptorType : rtype;
  utf8StringType : rtype;
  nullType : rtype;
  enumType : rtype;
  utcTimeType : rtype;
  getActualType : Value -> Value;
  rawValue_encode : option rawValue -> result (list Byte.byte);
  sort_rawValueSlice : list (option rawValue) -> list (option rawValue)
}.

(** The encoding context: its mode flag [ctx.der.encoding], the lookups in
    its choice and variant tables, and its other methods that encode.go
    calls: [newDefaultValue] and the content encoders. *)
Record Context : Type := mkContext {
  der_encoding : bool;
  getChoiceByType : string -> rtype -> result choiceEntry;
  getVariant : string -> string -> string -> result variantEntry;
  newDefaultValue : rtype -> fieldOptions -> result Value;
  encodeBigInt : encoderFunction;
  encodeBitString : encoderFunction;
  encodeOid : encoderFunction;
  encodeObjectDescriptor : encoderFunction;
  encodeUTF8String : encoderFunction;
  encodeNull : encoderFunction;
  encodeInt : encoderFunction;
  encodeUTCTime : encoderFunction;
  encodeBool : encoderFunction;
  encodeString : encoderFunction;
  encodeUint : encoderFunction;
  encodeReal : encoderFunction;
  encodeOctetString : encoderFunction
}.

(* ================================================================= *)
(** ** encode.go *)

Definition isSome {A : Type} (o : option A) : bool :=
  match o with Some _ => true | None => false end.

(** [isEmpty] checks if a value is empty. *)
Definition isEmpty (value : Value) : bool :=
  if negb (IsValid value) then true else DeepEqual_Zero value.

(** [isFieldExported] checks if the field name starts with a capital
    letter (of the ASCII range; a Go field name is never empty). *)
Definition isFieldExported (field : StructField) : bool :=
  match Name field with
  | EmptyString => false
  | String c _ => ((65 <=? nat_of_ascii c) && (nat_of_ascii c <=? 90))%nat
  end.

Section Encoder.

Variable pkg : Package.
Variable ctx : Context.

(** [applyOptions] modifies a raw value based on the given options. The
    budget bounds the depth of the recursion through choice entries. In the
    choice step the error of the recursive call is never looked at: every
    failing return of [applyOptions] carries a nil node, so the assignment
    to [raw.Class] that follows dereferences nil. *)
Fixpoint applyOptions (fuel : nat) (value : Value) (raw : rawValue)
  (opts : fieldOptions) : result rawValue :=
  (* Change sequence to set *)
  raw <- (if set opts then
            if negb (Class raw =? classUniversal) || negb (Tag raw =? tagSequence)
            then t <- Type_ value ;;
                 Err (syntaxError "Go type '%s' does not accept the flag 'set'"
                        [ArgT t])
            else Ok (set_Tag tagSet raw)
          else Ok raw) ;;
  (* Check if this type is an Asn.1 choice *)
  raw <- match choice opts with
         | Some name =>
             t <- Type_ value ;;
             entry <- getChoiceByType ctx name t ;;
             match
               match fuel with
               | O => OutOfFuel
               | S fuel' => applyOptions fuel' value raw (entry_opts entry)
               end
             with
             | Ok raw' =>
                 Ok (set_Tag (entry_tag entry) (set_Class (entry_class entry) raw'))
             | Err _ => Panic
             | Panic => Panic
             | OutOfFuel => OutOfFuel
             end
         | None => Ok raw
         end ;;
  (* Add an enclosing tag *)
  raw <- (if explicit opts then
            match tag opts with
            | None =>
                t <- Type_ value ;;
                Err (syntaxError
                       "invalid flag 'explicit' without tag on Go type '%s'"
                       [ArgT t])
            | Some _ =>
                content <- rawValue_encode pkg (Some raw) ;;
                Ok (set_Content content (set_Constructed true zeroRaw))
            end
          else Ok raw) ;;
  (* Change tag *)
  let raw := match tag opts with
             | Some t => set_Tag (uint t) (set_Class classContextSpecific raw)
             | None => raw
             end in
  (* Change class *)
  let raw := if universal opts then set_Class classUniversal raw else raw in
  let raw := if application opts then set_Class classApplication raw else raw in
  (* Use the indefinite length encoding *)
  if indefinite opts then
    if negb (Constructed raw)
    then t <- Type_ value ;;
         Err (syntaxError "invalid flag 'indefinite' on Go type: %s" [ArgT t])
    else Ok (set_Indefinite true raw)
  else Ok raw.

Section Recursion.

(** The main encode function, as the functions below call it. *)
Variable encode : Value -> fieldOptions -> result (option rawValue).

(** [EncodeWithOptions] returns the ASN.1 encoding of [obj] using
    additional options; no bytes for the ignore tag. *)
Definition EncodeWithOptions (obj : Value) (options : string)
  : result (list Byte.byte) :=
  opts <- parseOptions options ;;
  match opts with
  | None => Ok []
  | Some opts =>
      let value := ValueOf obj in
      raw <- encode value opts ;;
      rawValue_encode pkg raw
  end.

(** [Encode] returns the ASN.1 encoding of [obj]. *)
Definition Encode (obj : Value) : result (list Byte.byte) :=
  EncodeWithOptions obj "".

(** The loop over the sub-fields of a field that carries [variant].
    [Field(k)] of a sub-field that is not exported is a read-only value:
    [encode] reaches [value.Interface()] in [isEmpty], which panics on it.
    An ignore tag on a sub-field leaves [o] nil and [o.unique] panics. *)
Fixpoint variantFields (variantName : string) (uniqueValue : string)
  (subFields : list (StructField * Value)) (children : list (option rawValue))
  : result (list (option rawValue)) :=
  match subFields with
  | [] => Ok children
  | (variantStruct, variantValue) :: rest =>
      if negb (String.eqb uniqueValue "") then
        elem <- getVariant ctx variantName uniqueValue (Name variantStruct) ;;
        let o := elem_opts elem in
        raw <- (if isFieldExported variantStruct then encode variantValue o
                else Panic) ;;
        variantFields variantName uniqueValue rest (children ++ [raw])
      else
        let t := Tag_Get variantStruct in
        o <- parseOptions t ;;
        match o with
        | None => Panic
        | Some o =>
            let uniqueValue :=
              if unique o then Value_String variantValue else uniqueValue in
            raw <- (if isFieldExported variantStruct then encode variantValue o
                    else Panic) ;;
            variantFields variantName uniqueValue rest (children ++ [raw])
        end
  end.

(** The loop of [getRawValuesFromFields] over the fields of the struct. *)
Fixpoint fieldsLoop (fields : list (StructField * Value))
  (children : list (option rawValue)) : result (list (option rawValue)) :=
  match fields with
  | [] => Ok children
  | (fieldStruct, fieldValue) :: rest =>
      (* Ignore field that are not exported *)
      if isFieldExported fieldStruct then
        let tag := Tag_Get fieldStruct in
        opts <- parseOptions tag ;;
        match opts with
        | None => fieldsLoop rest children  (* the ignore tag *)
        | Some opts =>
            match variant opts with
            | Some variantName =>
                subFields <- Fields fieldValue ;;
                children <- variantFields variantName "" subFields children ;;
                fieldsLoop rest children
            | None =>
                raw <- encode fieldValue opts ;;
                fieldsLoop rest (children ++ [raw])
            end
        end
      else fieldsLoop rest children
  end.

(** [getRawValuesFromFields] encodes each valid field of a struct value and
    returns a slice of raw values, nil pointers for the absent ones. *)
Definition getRawValuesFromFields (value : Value)
  : result (list (option rawValue)) :=
  fields <- Fields value ;;
  fieldsLoop fields [].

Fixpoint encodeRawValuesLoop (values : list (option rawValue))
  (content : list Byte.byte) : result (list Byte.byte) :=
  match values with
  | [] => Ok content
  | raw :: rest =>
      buf <- rawValue_encode pkg raw ;;
      encodeRawValuesLoop rest (content ++ buf)
  end.

(** [encodeRawValues] is a helper function to encode raw values in
    sequence. *)
Definition encodeRawValues (values : list (option rawValue))
  : result (list Byte.byte) :=
  encodeRawValuesLoop values [].

(** [encodeStruct] encodes struct fields in order. *)
Definition encodeStruct (value : Value) : result (list Byte.byte) :=
  children <- getRawValuesFromFields value ;;
  encodeRawValues children.

(** [encodeStructAsSet] works similarly to [encodeStruct], but in DER mode
    the fields are encoded in ascending order of their tags. *)
Definition encodeStructAsSet (value : Value) : result (list Byte.byte) :=
  children <- getRawValuesFromFields value ;;
  (* Sort if necessary *)
  let children :=
    if der_encoding ctx then sort_rawValueSlice pkg children else children in
  encodeRawValues children.

Fixpoint encodeItems (options : string) (items : list Value)
  (content : list Byte.byte) : result (list Byte.byte) :=
  match items with
  | [] => Ok content
  | itemValue :: rest =>
      childBytes <- EncodeWithOptions (Interface_ itemValue) options ;;
      encodeItems options rest (content ++ childBytes)
  end.

(** [encodeSlice] encodes a slice or array as a sequence of values. *)
Definition encodeSlice (value : Value) : result (list Byte.byte) :=
  items <- Elems value ;;
  encodeItems "" items [].

(** [encodeChoices] encodes a slice of interface which represent choice. *)
Definition encodeChoices (choiceName : string) (value : Value)
  : result (list Byte.byte) :=
  items <- Elems value ;;
  encodeItems ("choice:" ++ choiceName) items [].

(** The first switch of [encodeValue], on the designated types. *)
Definition specialEncoder (objType : rtype) : option (Z * encoderFunction) :=
  if rtype_eqb objType (bigIntType pkg) then Some (tagInteger, encodeBigInt ctx)
  else if rtype_eqb objType (bitStringType pkg)
  then Some (tagBitString, encodeBitString ctx)
  else if rtype_eqb objType (oidType pkg) then Some (tagOid, encodeOid ctx)
  else if rtype_eqb objType (objDescriptorType pkg)
  then Some (tagObjDescriptor, encodeObjectDescriptor ctx)
  else if rtype_eqb objType (utf8StringType pkg)
  then Some (tagUTF8String, encodeUTF8String ctx)
  else if rtype_eqb objType (nullType pkg) then Some (tagNull, encodeNull ctx)
  else if rtype_eqb objType (enumType pkg) then Some (tagEnum, encodeInt ctx)
  else if rtype_eqb objType (utcTimeType pkg)
  then Some (tagUtcTime, encodeUTCTime ctx)
  else None.

(** The second switch of [encodeValue], on the kind: the node and the
    encoder, [None] for a nil encoder. *)
Definition genericEncoder (objType : rtype) (opts : fieldOptions)
  (raw : rawValue) : result (rawValue * option encoderFunction) :=
  match type_kind objType with
  | Bool => Ok (set_Tag tagBoolean raw, Some (encodeBool ctx))
  | String_ => Ok (set_Tag tagOctetString raw, Some (encodeString ctx))
  | Int | Int8 | Int16 | Int32 | Int64 =>
      Ok (set_Tag tagInteger raw, Some (encodeInt ctx))
  | Uint | Uint8 | Uint16 | Uint32 | Uint64 =>
      Ok (set_Tag tagInteger raw, Some (encodeUint ctx))
  | Float64 | Float32 => Ok (set_Tag tagReal raw, Some (encodeReal ctx))
  | Struct =>
      Ok (set_Constructed true (set_Tag tagSequence raw),
          Some (if set opts then encodeStructAsSet else encodeStruct))
  | Array | Slice =>
      match Elem objType with
      | None => Panic
      | Some elemType =>
          match type_kind elemType with
          | Uint8 => Ok (set_Tag tagOctetString raw, Some (encodeOctetString ctx))
          | _ =>
              let raw := set_Constructed true (set_Tag tagSequence raw) in
              opts <- match choice opts with
                      | Some name =>
                          entry <- getChoiceByType ctx name objType ;;
                          Ok (entry_opts entry)
                      | None => Ok opts
                      end ;;
              match choices opts with
              | Some name => Ok (raw, Some (encodeChoices name))
              | None => Ok (raw, Some encodeSlice)
              end
          end
      end
  | _ => Ok (raw, None)
  end.

Definition encodeValue (value : Value) (opts : fieldOptions)
  : result rawValue :=
  let raw := zeroRaw in
  objType <- Type_ value ;;
  sel <- match specialEncoder objType with
         | Some (t, encoder) => Ok (set_Tag t raw, Some encoder)
         | None => genericEncoder objType opts raw
         end ;;
  match snd sel with
  | None => Err (syntaxError "invalid Go type: %s" [ArgT objType])
  | Some encoder =>
      content <- encoder value ;;
      Ok (set_Content content (fst sel))
  end.

(** The body of the main encode function; [fuel] is what it hands to
    [applyOptions]. *)
Definition encodeBody (fuel : nat) (value : Value) (opts : fieldOptions)
  : result (option rawValue) :=
  (* Skip the interface type *)
  let value := getActualType pkg value in
  (* If a value is missing the default value is used *)
  let empty := isEmpty value in
  ve <- match defaultValue opts with
        | Some _ =>
            if empty && negb (der_encoding ctx) then
              t <- Type_ value ;;
              defaultValue <- newDefaultValue ctx t opts ;;
              Ok (defaultValue, false)
            else Ok (value, empty)
        | None => Ok (value, empty)
        end ;;
  let value := fst ve in
  let empty := snd ve in
  (* Since the empty flag is already calculated, check if it's optional *)
  if (optional opts || isSome (defaultValue opts)) && empty then Ok None
  else
    (* Encode data *)
    raw <- encodeValue value opts ;;
    (* Modify the data generated based on the given tags *)
    raw <- applyOptions fuel value raw opts ;;
    Ok (Some raw).

End Recursion.

(** The main encode function. [fuel] bounds the nesting of the calls: the
    encoding of a field or of an element runs with one less. *)
Fixpoint encode (fuel : nat) (value : Value) (opts : fieldOptions)
  : result (option rawValue) :=
  encodeBody
    (match fuel with
     | O => fun _ _ => OutOfFuel
     | S fuel' => encode fuel'
     end)
    fuel value opts.

(** The functions above at a given budget. *)
Definition sub (fuel : nat) : Value -> fieldOptions -> result (option rawValue) :=
  match fuel with
  | O => fun _ _ => OutOfFuel
  | S fuel' => encode fuel'
  end.

End Encoder.

(* ================================================================= *)
(** ** A concrete package and context, for the examples *)

Module Sample.

Local Open Scope list_scope.

Definition byte_of_Z (z : Z) : Byte.byte :=
  match Byte.of_N (Z.to_N (z mod 256)) with
  | Some b => b
  | None => Byte.x00
  end.

(** The digits of [n] in [base], most significant first. *)
Fixpoint bigEndian (fuel : nat) (base n : Z) (acc : list Z) : list Z :=
  match fuel with
  | O => n :: acc
  | S fuel' =>
      if n <? base then n :: acc
      else bigEndian fuel' base (n / base) (n mod base :: acc)
  end.

(** Modelled from the spec: the identifier octets of a node, "class (2
    bits), constructed bit, and tag number (short form up to 30, long form
    otherwise)". *)
Definition encodeIdentifier (raw : rawValue) : list Byte.byte :=
  let head := Class raw * 64 + (if Constructed raw then 32 else 0) in
  if Tag raw <=? 30 then [byte_of_Z (head + Tag raw)]
  else
    let ds := bigEndian 10 128 (Tag raw) [] in
    byte_of_Z (head + 31)
    :: map byte_of_Z (map (Z.add 128) (removelast ds) ++ [last ds 0]).

(** Modelled from the spec: the length octets, "short form for content
    under 128 bytes, long form otherwise". *)
Definition encodeLength (n : Z) : list Byte.byte :=
  if n <? 128 then [byte_of_Z n]
  else
    let ds := bigEndian 8 256 n [] in
    byte_of_Z (128 + Z.of_nat (List.length ds)) :: map byte_of_Z ds.

(** Modelled from the spec: the byte serialization of a node, which the
    package defines outside encode.go: identifier, length and content, "or
    the indefinite marker (a single 0x80 octet) ... terminated by two zero
    octets"; an absent node (a nil pointer) gives no bytes. *)
Definition raw_encode (raw : option rawValue) : result (list Byte.byte) :=
  match raw with
  | None => Ok []
  | Some raw =>
      if Indefinite raw then
        Ok (encodeIdentifier raw ++ [Byte.x80] ++ Content raw
            ++ [Byte.x00; Byte.x00])
      else
        Ok (encodeIdentifier raw
            ++ encodeLength (Z.of_nat (List.length (Content raw)))
            ++ Content raw)
  end.

(** Modelled from the spec: "sort children ascending by (class, tag)",
    stable: an insertion sort that puts a node before the first node that
    is not below it. Absent children, which the spec does not order, stay
    ahead of the nodes. *)
Definition rawLeb (a b : option rawValue) : bool :=
  match a, b with
  | None, _ => true
  | Some _, None => false
  | Some x, Some y =>
      (Class x <? Class y) || ((Class x =? Class y) && (Tag x <=? Tag y))
  end.

Fixpoint insertRaw (x : option rawValue) (l : list (option rawValue))
  : list (option rawValue) :=
  match l with
  | [] => [x]
  | y :: l' => if rawLeb x y then x :: l else y :: insertRaw x l'
  end.

Fixpoint sortRaw (l : list (option rawValue)) : list (option rawValue) :=
  match l with
  | [] => []
  | x :: l' => insertRaw x (sortRaw l')
  end.

(** Modelled from the spec: "strip any dynamic/interface indirection". *)
Definition actualType (v : Value) : Value :=
  match v with VIface _ dyn => dyn | _ => v end.

(** Modelled from the spec: the eight designated types; their names are
    chosen here. *)
Definition package : Package :=
  mkPackage
    (TBase "*big.Int" Pointer) (TBase "asn1.BitString" Struct)
    (TSeq "asn1.Oid" Slice (TBase "uint" Uint))
    (TBase "asn1.ObjectDescriptor" String_) (TBase "asn1.UTF8String" String_)
    (TBase "asn1.Null" Struct) (TBase "asn1.Enum" Int)
    (TBase "asn1.UTCTime" Struct)
    actualType raw_encode sortRaw.

(** The content of an INTEGER: two's complement on the least number of
    bytes. *)
Fixpoint intBytes (fuel : nat) (n : Z) (i : Z) : list Byte.byte :=
  match fuel with
  | O => map byte_of_Z (bigEndian 10 256 (i mod 2 ^ (8 * n)) [])
  | S fuel' =>
      if (- 2 ^ (8 * n - 1) <=? i) && (i <? 2 ^ (8 * n - 1))
      then
        let ds := bigEndian 10 256 (i mod 2 ^ (8 * n)) [] in
        map byte_of_Z (repeat 0 (Z.to_nat n - List.length ds) ++ ds)
      else intBytes fuel' (n + 1) i
  end.

Definition sampleInt : encoderFunction :=
  fun v =>
    match v with
    | VInt _ i => Ok (intBytes 9 1 i)
    | _ => Panic
    end.

Definition sampleBool : encoderFunction :=
  fun v =>
    match v with
    | VBool _ b => Ok [if b then Byte.xff else Byte.x00]
    | _ => Panic
    end.

Definition sampleString : encoderFunction :=
  fun v =>
    match v with
    | VString _ s => Ok (list_byte_of_string s)
    | _ => Panic
    end.

Definition sampleNull : encoderFunction := fun _ => Ok [].

Definition notModelled : encoderFunction :=
  fun _ => Err (SyntaxError "content encoder outside the examples" []).

(** Modelled from the spec: "a freshly constructed instance representing
    the default", for the integer kinds, the directive carrying an integer. *)
Definition sampleDefault (t : rtype) (opts : fieldOptions) : result Value :=
  match defaultValue opts with
  | None => Panic
  | Some d =>
      match type_kind t with
      | Int | Int8 | Int16 | Int32 | Int64 => Ok (VInt t d)
      | Uint | Uint8 | Uint16 | Uint32 | Uint64 => Ok (VInt t (uint d))
      | _ => Err (SyntaxError "default value is only allowed to integers" [])
      end
  end.

(** Modelled from the spec: the lookup services, "fails if absent", over
    tables given as lists. *)
Definition lookupChoice (table : list (string * rtype * choiceEntry))
  (name : string) (t : rtype) : result choiceEntry :=
  match find (fun e => String.eqb (fst (fst e)) name && rtype_eqb (snd (fst e)) t)
          table with
  | Some e => Ok (snd e)
  | None => Err (LookupError "choice not found")
  end.

Definition lookupVariant (table : list (string * string * string * variantEntry))
  (name uniqueValue fieldName : string) : result variantEntry :=
  match find (fun e =>
                String.eqb (fst (fst (fst e))) name
                && String.eqb (snd (fst (fst e))) uniqueValue
                && String.eqb (snd (fst e)) fieldName) table with
  | Some e => Ok (snd e)
  | None => Err (LookupError "variant not found")
  end.

Definition context (der : bool)
  (choiceTable : list (string * rtype * choiceEntry))
  (variantTable : list (string * string * string * variantEntry)) : Context :=
  mkContext der (lookupChoice choiceTable) (lookupVariant variantTable)
    sampleDefault
    notModelled notModelled notModelled notModelled notModelled sampleNull
    sampleInt notModelled sampleBool sampleString sampleInt notModelled
    notModelled.

Definition ber : Context := context false [] [].
Definition der : Context := context true [] [].

Definition intType : rtype := TBase "int" Int.
Definition structType : rtype := TBase "T" Struct.



Definition options (s : string) : fieldOptions :=
  match parseOptions s with
  | Ok (Some o) => o
  | _ => zeroOptions
  end.

(** [struct { A int; B int }{1, 2}] and the same fields declared in the
    other order. *)
Definition pairAB : Value :=
  VStruct (TBase "AB" Struct)
    [(mkField "A" "", VInt intType 1); (mkField "B" "", VInt intType 2)].


(** A choice table [c] whose entry for [int] was registered with the
    options [explicit]. *)
Definition explicitChoice : Context :=
  context false
    [("c", intType, mkChoice classContextSpecific 1 (options "explicit"))] [].



End Sample.

(* ================================================================= *)
(** ** What the statements speak of *)

(** A directive string of commas and white space only: the runes of
    [unicode.IsSpace], as [TrimLeft] reads them. *)
Fixpoint onlyCommasAndSpace (s : string) : bool :=
  match s with
  | EmptyString => true
  | String c r =>
      if Ascii.eqb c "," || asciiSpace c then onlyCommasAndSpace r
      else
        match r with
        | String d r2 =>
            if space2 c d then onlyCommasAndSpace r2
            else
              match r2 with
              | String e r3 =>
                  if space3 c d e then onlyCommasAndSpace r3 else false
              | EmptyString => false
              end
        | EmptyString => false
        end
  end.

(** The option names of a directive string: what [parseOption] finds in
    [args[0]] for each token. *)
Definition optionNames (s : string) : list string :=
  map (fun token => hd "" (Split (TrimSpace token) ":")) (Split s ",").

Definition hasOption (name : string) (s : string) : bool :=
  existsb (String.eqb name) (optionNames s).


Section SubFields.

Variable ctx : Context.
Variable encode : Value -> fieldOptions -> result (option rawValue).





End SubFields.




(** The directive set that carries [choice:<name>] alone. *)
Definition choiceOnly (name : string) : fieldOptions :=
  set_choice (Some name) zeroOptions.

(** Whether the arguments of a token do not fit its name: a flag with a
    value, or a valued option with none or with more than one. *)
Definition wrongArity (args : list string) : bool :=
  let name := hd "" args in
  (existsb (String.eqb name)
     ["universal"; "application"; "explicit"; "indefinite"; "optional";
      "unique"; "set"]
   && (1 <? List.length args)%nat)
  || (existsb (String.eqb name) ["tag"; "default"; "choice"; "choices"; "variant"]
      && negb (List.length args =? 2)%nat).

(** The arguments that [parseOptions] hands to [parseOption], token by
    token. *)
Definition tokenArgs (s : string) : list (list string) :=
  map (fun token => Split (TrimSpace token) ":") (Split s ",").

(** A byte that a table name can hold and that comes back from a
    directive string: of the ASCII range, no white space, no comma and no
    colon. *)
Definition plainChar (c : ascii) : bool :=
  (nat_of_ascii c <? 128)%nat && negb (asciiSpace c)
  && negb (Ascii.eqb c ",") && negb (Ascii.eqb c ":").

Fixpoint plainString (s : string) : bool :=
  match s with
  | EmptyString => true
  | String c r => plainChar c && plainString r
  end.

Definition plainName (o : option string) : bool :=
  match o with
  | Some s => plainString s
  | None => true
  end.

(** The node of an implicit tag: class context-specific and the tag of
    the directive. *)
Definition retag (t : Z) (raw : rawValue) : rawValue :=
  set_Tag (uint t) (set_Class classContextSpecific raw).

Section Classed.

Variable pkg : Package.
Variable ctx : Context.
Variable encode : Value -> fieldOptions -> result (option rawValue).

(** [ctx.getVariantsByField], which the context declares outside
    encode.go: the entries of a variant table for a sub-field name. *)
Variable getVariantsByField : string -> string -> result (list variantEntry).




End Classed.

(** A tag or a default value that fits a 64-bit [int]. *)
Definition inIntRange (o : option Z) : Prop :=
  forall t, o = Some t -> - 2 ^ 63 <= t <= 2 ^ 63 - 1.

(** What a call returns when it neither panics nor fails other than with a
    syntax error. *)
Definition syntaxOnly {A : Type} (r : result A) : Prop :=
  match r with
  | Ok _ => True
  | Err (SyntaxError _ _) => True
  | _ => False
  end.

(** Whether no byte of [s] is the separator. *)
Fixpoint lacks (sep : ascii) (s : string) : bool :=
  match s with
  | EmptyString => true
  | String c r => negb (Ascii.eqb c sep) && lacks sep r
  end.

(** The tokens that [fieldOptions_String] joins. *)
Definition directiveTokens (opts : fieldOptions) : list string :=
  (if universal opts then ["universal"] else [])
  ++ (if application opts then ["application"] else [])
  ++ (if explicit opts then ["explicit"] else [])
  ++ (if indefinite opts then ["indefinite"] else [])
  ++ (if optional opts then ["optional"] else [])
  ++ (if unique opts then ["unique"] else [])
  ++ (if set opts then ["set"] else [])
  ++ match tag opts with Some t => [("tag:" ++ Itoa t)%string] | None => [] end
  ++ match choice opts with Some c => [("choice:" ++ c)%string] | None => [] end
  ++ match choices opts with Some c => [("choices:" ++ c)%string] | None => [] end
  ++ match variant opts with Some v => [("variant:" ++ v)%string] | None => [] end.

(** A node whose length may be written in the indefinite form: only a
    constructed node may be marked so. *)
Definition wellFormed (raw : rawValue) : Prop :=
  Indefinite raw = true -> Constructed raw = true.

(* ================================================================= *)
(** * Properties *)

Local Open Scope list_scope.

Example parse_tag_explicit :
  parseOptions "tag:5,explicit"
  = Ok (Some (set_explicit true (set_tag (Some 5) zeroOptions))).
Proof. reflexivity. Qed.

Example parse_bogus :
  parseOptions "bogus" = Err (SyntaxError "Invalid option: %s" [ArgS "bogus"]).
Proof. reflexivity. Qed.

Example parse_negative_tag :
  parseOptions "tag:-1"
  = Err (SyntaxError "'tag' cannot be negative: %d" [ArgD (-1)]).
Proof. reflexivity. Qed.

Example parse_blank : parseOptions " , ,  " = Ok (Some zeroOptions).
Proof. reflexivity. Qed.

(* ================================================================= *)
(** ** The result monad and the loops *)



Lemma bind_Ok {A B : Type} (r : result A) (k : A -> result B) (b : B) :
  bind r k = Ok b -> exists a, r = Ok a /\ k a = Ok b.
Proof. destruct r; simpl; intros H; try discriminate. eauto. Qed.

Lemma bind_assoc {A B C : Type} (r : result A) (f : A -> result B)
  (g : B -> result C) :
  bind (bind r f) g = bind r (fun a => bind (f a) g).
Proof. destruct r; reflexivity. Qed.

Lemma bind_Ok_l {A B : Type} (a : A) (k : A -> result B) : bind (Ok a) k = k a.
Proof. reflexivity. Qed.

Lemma bind_ret {A : Type} (r : result A) : bind r (fun a => Ok a) = r.
Proof. destruct r; reflexivity. Qed.

Lemma bind_ext {A B : Type} (r : result A) (f g : A -> result B) :
  (forall a, f a = g a) -> bind r f = bind r g.
Proof. intros H. destruct r; simpl; auto. Qed.

(** Re-associates the binds of a goal and steps under the first one. *)
Ltac bind_norm := repeat (rewrite bind_assoc || rewrite bind_Ok_l); cbv beta.
Ltac bind_step := bind_norm; apply bind_ext; intro; bind_norm.

Lemma mapM_app {A B : Type} (f : A -> result B) (l1 l2 : list A) :
  mapM f (l1 ++ l2)
  = (a <- mapM f l1 ;; b <- mapM f l2 ;; Ok (a ++ b)).
Proof.
  induction l1 as [|x l1 IH]; simpl.
  - rewrite bind_ret. reflexivity.
  - destruct (f x) as [b| | |]; simpl; try reflexivity.
    rewrite IH. rewrite ?bind_assoc. apply bind_ext. intros a. simpl.
    rewrite ?bind_assoc. apply bind_ext. intros c. reflexivity.
Qed.




(* ================================================================= *)
(** ** The directive parser *)

Lemma Split_nonempty (s : string) (sep : ascii) : Split s sep <> [].
Proof.
  induction s as [|c r IH]; simpl; [discriminate|].
  destruct (Ascii.eqb c sep); [discriminate|].
  destruct (Split r sep); discriminate.
Qed.

Lemma Split_skip (c : ascii) (r : string) (sep : ascii) :
  Ascii.eqb c sep = false ->
  exists h t, Split r sep = h :: t /\ Split (String c r) sep = String c h :: t.
Proof.
  intros H. simpl. rewrite H.
  destruct (Split r sep) as [|h t] eqn:E.
  - exfalso. eapply Split_nonempty; eauto.
  - eauto.
Qed.

Lemma asciiSpace_not_comma (c : ascii) :
  asciiSpace c = true -> Ascii.eqb c "," = false.
Proof.
  intros H. destruct (Ascii.eqb_spec c ","); [subst; discriminate|reflexivity].
Qed.

Lemma space2_not_comma (c d : ascii) :
  space2 c d = true -> Ascii.eqb c "," = false /\ Ascii.eqb d "," = false.
Proof.
  unfold space2. intros H. apply andb_prop in H. destruct H as [Hc Hd].
  split.
  - destruct (Ascii.eqb_spec c ","); [subst; discriminate|reflexivity].
  - destruct (Ascii.eqb_spec d ","); [subst; discriminate|reflexivity].
Qed.

Lemma space3_not_comma (c d e : ascii) :
  space3 c d e = true ->
  Ascii.eqb c "," = false /\ Ascii.eqb d "," = false /\ Ascii.eqb e "," = false.
Proof.
  intros H. repeat split.
  - destruct (Ascii.eqb_spec c ","); [subst; discriminate|reflexivity].
  - destruct (Ascii.eqb_spec d ","); [subst|reflexivity].
    unfold space3 in H. cbn in H.
    repeat rewrite andb_false_r in H. discriminate.
  - destruct (Ascii.eqb_spec e ","); [subst|reflexivity].
    unfold space3 in H. cbn in H.
    repeat rewrite andb_false_r in H. discriminate.
Qed.

Lemma Split_blank_bounded (n : nat) :
  forall s, (String.length s <= n)%nat -> onlyCommasAndSpace s = true ->
  Forall (fun token => TrimLeft token = "") (Split s ",").
Proof.
  induction n as [|n IH]; intros s Hlen Hs.
  - destruct s; [|simpl in Hlen; lia]. repeat constructor.
  - destruct s as [|c r]; [repeat constructor|].
    simpl in Hlen. simpl in Hs.
    destruct (Ascii.eqb c ",") eqn:Hc.
    + simpl. rewrite Hc. constructor; [reflexivity|].
      apply IH; [lia|exact Hs].
    + simpl in Hs. destruct (asciiSpace c) eqn:Ha.
      * destruct (Split_skip c r "," Hc) as (h & t & E1 & E2).
        rewrite E2. assert (F : Forall (fun token => TrimLeft token = "") (Split r ","))
          by (apply IH; [lia|exact Hs]).
        rewrite E1 in F. inversion F; subst.
        constructor; [simpl; rewrite Ha; assumption|assumption].
      * destruct r as [|d r2]; [discriminate|].
        simpl in Hlen.
        destruct (space2 c d) eqn:H2.
        -- destruct (space2_not_comma _ _ H2) as [_ Hd].
           destruct (Split_skip d r2 "," Hd) as (h & t & E1 & E2).
           simpl. rewrite Hc. simpl in E2. rewrite E2.
           assert (F : Forall (fun token => TrimLeft token = "") (Split r2 ","))
             by (apply IH; [lia|exact Hs]).
           rewrite E1 in F. inversion F; subst.
           constructor; [simpl; rewrite Ha, H2; assumption|assumption].
        -- destruct r2 as [|e r3]; [discriminate|].
           simpl in Hlen.
           destruct (space3 c d e) eqn:H3; [|discriminate].
           destruct (space3_not_comma _ _ _ H3) as (_ & Hd & He).
           destruct (Split_skip e r3 "," He) as (h & t & E1 & E2).
           simpl. rewrite Hc, Hd. simpl in E2. rewrite E2.
           assert (F : Forall (fun token => TrimLeft token = "") (Split r3 ","))
             by (apply IH; [lia|exact Hs]).
           rewrite E1 in F. inversion F; subst.
           constructor; [simpl; rewrite Ha, H2, H3; assumption|assumption].
Qed.

Lemma parseTokens_blank (opts : fieldOptions) (tokens : list string) :
  Forall (fun token => TrimLeft token = "") tokens ->
  parseTokens opts tokens = Ok opts.
Proof.
  induction 1 as [|token rest Ht _ IH]; [reflexivity|].
  simpl. unfold TrimSpace. rewrite Ht. simpl. exact IH.
Qed.

(** Claim C9. A directive string of commas and white space only, the
    empty string among them, parses to the empty directive set: the empty
    tokens are skipped. *)
Theorem blank_directive_parses_to_empty_set (s : string) :
  onlyCommasAndSpace s = true -> parseOptions s = Ok (Some zeroOptions).
Proof.
  intros Hs. unfold parseOptions.
  destruct (String.eqb_spec s "-") as [E|_]; [subst; discriminate|].
  rewrite parseTokens_blank; [reflexivity|].
  apply (Split_blank_bounded (String.length s)); [lia|exact Hs].
Qed.

(** C9 on a tab, blanks, commas and U+2009. *)
Lemma blank_directive_witness :
  onlyCommasAndSpace (String "009" " , ,," ++ String "226" (String "128" (String "137" "")))
  = true
  /\ parseOptions (String "009" " , ,," ++ String "226" (String "128" (String "137" "")))
     = Ok (Some zeroOptions).
Proof.
  split; [reflexivity|].
  apply blank_directive_parses_to_empty_set. reflexivity.
Defined.

Lemma parseBoolOption_Ok (args : list string) (b : bool) :
  parseBoolOption args = Ok b -> b = true.
Proof.
  unfold parseBoolOption. destruct (1 <? List.length args)%nat; congruence.
Qed.

Ltac parse_case H :=
  match type of H with
  | (if String.eqb ?a ?s then _ else _) = Ok _ =>
      let E := fresh "E" in
      destruct (String.eqb_spec a s) as [E|E];
      [ subst a | parse_case H ]
  | _ => idtac
  end.





(* ================================================================= *)
(** ** The encoder *)

Lemma encode_unfold (pkg : Package) (ctx : Context) (fuel : nat)
  (value : Value) (opts : fieldOptions) :
  encode pkg ctx fuel value opts
  = encodeBody pkg ctx (sub pkg ctx fuel) fuel value opts.
Proof. destruct fuel; reflexivity. Qed.

Section Loops.

Variable pkg : Package.
Variable ctx : Context.
Variable enc : Value -> fieldOptions -> result (option rawValue).



Lemma encodeItems_acc (options : string) (items : list Value) :
  forall content,
  encodeItems pkg enc options items content
  = (bs <- mapM (fun e => EncodeWithOptions pkg enc (Interface_ e) options) items ;;
     Ok (content ++ List.concat bs)).
Proof.
  induction items as [|e rest IH]; intros content; simpl.
  - rewrite app_nil_r. reflexivity.
  - destruct (EncodeWithOptions pkg enc (Interface_ e) options) as [buf| | |];
      simpl; try reflexivity.
    rewrite IH. rewrite bind_assoc. apply bind_ext. intros bs. simpl.
    rewrite app_assoc. reflexivity.
Qed.








End Loops.

Section Orchestrator.

Variable pkg : Package.
Variable ctx : Context.




Lemma applyOptions_explicit (fuel : nat) (value : Value) (raw : rawValue)
  (opts : fieldOptions) (n : Z) (bytes : list Byte.byte) :
  set opts = false -> choice opts = None ->
  explicit opts = true -> tag opts = Some n ->
  rawValue_encode pkg (Some raw) = Ok bytes ->
  applyOptions pkg ctx fuel value raw opts
  = Ok (mkRaw
          (if application opts then classApplication
           else if universal opts then classUniversal
           else classContextSpecific)
          (uint n) true (indefinite opts) bytes).
Proof.
  intros Hs Hc He Ht Hb.
  destruct fuel; simpl; rewrite Hs, Hc, He, Ht; simpl; rewrite Hb; simpl;
    destruct (universal opts), (application opts), (indefinite opts);
    reflexivity.
Qed.

(** Claim C6. The integer 7 under [tag:5,explicit] gives a constructed
    node of context-specific class and tag 5 whose content is the full
    serialization of the inner node, the universal INTEGER (tag 2) with
    content 07. In general the [explicit] step serializes the current node
    and wraps those bytes in a new constructed node, which then takes the
    tag and class of the directives; the inner node keeps its own. *)
Theorem explicit_tag_wraps_the_inner_node :
  (forall fuel t bytes,
     type_kind t = Int ->
     specialEncoder pkg ctx t = None ->
     getActualType pkg (VInt t 7) = VInt t 7 ->
     encodeInt ctx (VInt t 7) = Ok [Byte.x07] ->
     rawValue_encode pkg
       (Some (mkRaw classUniversal tagInteger false false [Byte.x07]))
     = Ok bytes ->
     exists opts,
       parseOptions "tag:5,explicit" = Ok (Some opts)
       /\ encode pkg ctx fuel (VInt t 7) opts
          = Ok (Some (mkRaw classContextSpecific 5 true false bytes)))
  /\ (forall fuel value raw opts n bytes,
        set opts = false -> choice opts = None ->
        explicit opts = true -> tag opts = Some n ->
        rawValue_encode pkg (Some raw) = Ok bytes ->
        applyOptions pkg ctx fuel value raw opts
        = Ok (mkRaw
                (if application opts then classApplication
                 else if universal opts then classUniversal
                 else classContextSpecific)
                (uint n) true (indefinite opts) bytes)).
Proof.
  split.
  - intros fuel t bytes Hk Hsp Hact Hint Hraw.
    eexists. split; [reflexivity|].
    rewrite encode_unfold. unfold encodeBody. rewrite Hact. simpl.
    unfold encodeValue. simpl. rewrite Hsp. unfold genericEncoder.
    rewrite Hk. simpl. rewrite Hint. simpl.
    change (set_Content [Byte.x07] (set_Tag tagInteger zeroRaw))
      with (mkRaw classUniversal tagInteger false false [Byte.x07]).
    rewrite (applyOptions_explicit fuel (VInt t 7)
               (mkRaw classUniversal tagInteger false false [Byte.x07])
               (set_explicit true (set_tag (Some 5) zeroOptions)) 5 bytes
               eq_refl eq_refl eq_refl eq_refl Hraw).
    reflexivity.
  - intros. apply applyOptions_explicit; assumption.
Qed.

Lemma applyOptions_choice_failure (fuel : nat) (value : Value) (raw : rawValue)
  (opts : fieldOptions) (name : string) (t : rtype) (entry : choiceEntry)
  (e : error) :
  set opts = false -> choice opts = Some name ->
  Type_ value = Ok t -> getChoiceByType ctx name t = Ok entry ->
  applyOptions pkg ctx fuel value raw (entry_opts entry) = Err e ->
  applyOptions pkg ctx (S fuel) value raw opts = Panic.
Proof.
  intros Hs Hc Ht Hg Hn. simpl. rewrite Hs, Hc, Ht. simpl. rewrite Hg. simpl.
  rewrite Hn. reflexivity.
Qed.

End Orchestrator.

Section Choices.

Variable pkg : Package.
Variable ctx : Context.



End Choices.




Section SetOrder.

Variable pkg : Package.
Variable ctx : Context.



End SetOrder.


Section Variants.

Variable pkg : Package.
Variable ctx : Context.
Variable enc : Value -> fieldOptions -> result (option rawValue).




End Variants.




(** Claim C3, on the code. A choice table [c] whose entry for [int] was
    registered with [explicit] and no tag: [applyOptions] with the options
    of the entry fails with a syntax error, and the encoding of an [int]
    under [choice:c] does not return that error: it ends in a panic. *)
Theorem choice_entry_failure_panics (fuel : nat) :
  parseOptions "explicit" = Ok (Some (Sample.options "explicit"))
  /\ parseOptions "choice:c" = Ok (Some (choiceOnly "c"))
  /\ applyOptions Sample.package Sample.explicitChoice fuel
       (VInt Sample.intType 7)
       (mkRaw classUniversal tagInteger false false [Byte.x07])
       (Sample.options "explicit")
     = Err (SyntaxError "invalid flag 'explicit' without tag on Go type '%s'"
              [ArgT Sample.intType])
  /\ encode Sample.package Sample.explicitChoice (S fuel)
       (VInt Sample.intType 7) (choiceOnly "c")
     = Panic.
Proof.
  split; [reflexivity|]. split; [reflexivity|].
  assert (A : forall raw,
             applyOptions Sample.package Sample.explicitChoice fuel
               (VInt Sample.intType 7) raw (Sample.options "explicit")
             = Err (SyntaxError
                      "invalid flag 'explicit' without tag on Go type '%s'"
                      [ArgT Sample.intType])).
  { intros raw. destruct fuel; reflexivity. }
  split; [apply A|].
  rewrite encode_unfold. unfold encodeBody. simpl.
  rewrite A. reflexivity.
Qed.

(* ================================================================= *)
(** ** The sample package *)












(* ================================================================= *)
(** ** The statements at concrete inputs *)




(** C6 in the sample package: the outer node holds 02 01 07. *)
Lemma explicit_tag_witness :
  type_kind Sample.intType = Int
  /\ specialEncoder Sample.package Sample.ber Sample.intType = None
  /\ getActualType Sample.package (VInt Sample.intType 7) = VInt Sample.intType 7
  /\ encodeInt Sample.ber (VInt Sample.intType 7) = Ok [Byte.x07]
  /\ rawValue_encode Sample.package
       (Some (mkRaw classUniversal tagInteger false false [Byte.x07]))
     = Ok [Byte.x02; Byte.x01; Byte.x07]
  /\ exists opts,
       parseOptions "tag:5,explicit" = Ok (Some opts)
       /\ encode Sample.package Sample.ber 0 (VInt Sample.intType 7) opts
          = Ok (Some (mkRaw classContextSpecific 5 true false
                        [Byte.x02; Byte.x01; Byte.x07])).
Proof.
  repeat (split; [reflexivity|]).
  apply (proj1 (explicit_tag_wraps_the_inner_node Sample.package Sample.ber));
    reflexivity.
Defined.








(* ================================================================= *)
(** ** More on the directive parser *)

Lemma Atoi_range (s : string) (z : Z) :
  Atoi s = Some z -> - 2 ^ 63 <= z <= 2 ^ 63 - 1.
Proof.
  unfold Atoi. destruct s as [|c r]; [discriminate|].
  destruct (if Ascii.eqb c "-" || Ascii.eqb c "+" then r else String c r);
    [discriminate|].
  match goal with |- context [digits ?b 0] => destruct (digits b 0) end;
    [|discriminate].
  match goal with
  | |- context [if ?t then _ else _] => destruct t eqn:E
  end; [|discriminate].
  intros H. injection H as <-.
  apply andb_prop in E. destruct E as [E1 E2].
  apply Z.leb_le in E1. apply Z.leb_le in E2. lia.
Qed.

Lemma parseIntOption_Ok (args : list string) (v : option Z) :
  parseIntOption args = Ok v ->
  exists t, v = Some t /\ - 2 ^ 63 <= t <= 2 ^ 63 - 1.
Proof.
  unfold parseIntOption.
  destruct args as [|a0 [|a1 [|a2 rest]]]; try discriminate.
  destruct (Atoi a1) as [num|] eqn:E; [|discriminate].
  intros H. injection H as <-. exists num. split; [reflexivity|].
  apply Atoi_range with (s := a1). exact E.
Qed.

Lemma parseStringOption_Ok (args : list string) (v : option string) :
  parseStringOption args = Ok v -> exists a, v = Some a.
Proof.
  unfold parseStringOption.
  destruct args as [|a0 [|a1 [|a2 rest]]]; try discriminate.
  intros H. injection H as <-. eauto.
Qed.

(** Splits a successful [parseOption] into its thirteen cases, the helper
    of each case inverted. *)
Ltac parse_inv H :=
  parse_case H;
  try (apply bind_Ok in H;
       let b := fresh "b" in
       let Hb := fresh "Hb" in
       destruct H as (b & Hb & H);
       first [ apply parseBoolOption_Ok in Hb; subst b
             | apply parseIntOption_Ok in Hb;
               let t := fresh "t" in
               let R := fresh "R" in
               destruct Hb as (t & -> & R)
             | apply parseStringOption_Ok in Hb;
               let a := fresh "a" in
               destruct Hb as (a & ->) ]);
  try discriminate;
  injection H as <-.

Lemma parseOption_presence (opts opts' : fieldOptions) (args : list string) :
  parseOption opts args = Ok opts' ->
  universal opts' = (universal opts || String.eqb "universal" (hd "" args))
  /\ application opts' = (application opts || String.eqb "application" (hd "" args))
  /\ explicit opts' = (explicit opts || String.eqb "explicit" (hd "" args))
  /\ indefinite opts' = (indefinite opts || String.eqb "indefinite" (hd "" args))
  /\ optional opts' = (optional opts || String.eqb "optional" (hd "" args))
  /\ unique opts' = (unique opts || String.eqb "unique" (hd "" args))
  /\ set opts' = (set opts || String.eqb "set" (hd "" args))
  /\ isSome (tag opts') = (isSome (tag opts) || String.eqb "tag" (hd "" args))
  /\ isSome (defaultValue opts')
     = (isSome (defaultValue opts) || String.eqb "default" (hd "" args))
  /\ isSome (choice opts') = (isSome (choice opts) || String.eqb "choice" (hd "" args))
  /\ isSome (choices opts')
     = (isSome (choices opts) || String.eqb "choices" (hd "" args))
  /\ isSome (variant opts')
     = (isSome (variant opts) || String.eqb "variant" (hd "" args)).
Proof.
  unfold parseOption. destruct args as [|a0 rest]; [discriminate|].
  intros H. parse_inv H; simpl;
    rewrite ?orb_false_r, ?orb_true_r; repeat split.
Qed.

Lemma parseOption_range (opts opts' : fieldOptions) (args : list string) :
  parseOption opts args = Ok opts' ->
  inIntRange (tag opts) -> inIntRange (tag opts').
Proof.
  unfold parseOption. destruct args as [|a0 rest]; [discriminate|].
  intros H T. parse_inv H; simpl; try exact T.
  intros t' Ht. injection Ht as <-. exact R.
Qed.

Lemma parseTokens_range (tokens : list string) :
  forall opts opts', parseTokens opts tokens = Ok opts' ->
  inIntRange (tag opts) -> inIntRange (tag opts').
Proof.
  induction tokens as [|token rest IH]; intros opts opts' H T; simpl in H.
  - injection H as <-. exact T.
  - apply bind_Ok in H. destruct H as (o1 & H1 & H2).
    eapply IH; [exact H2|]. eapply parseOption_range; eauto.
Qed.

Lemma parseTokens_presence (tokens : list string) :
  forall opts opts', parseTokens opts tokens = Ok opts' ->
  let names := map (fun token => hd "" (Split (TrimSpace token) ":")) tokens in
  universal opts' = (universal opts || existsb (String.eqb "universal") names)
  /\ application opts' = (application opts || existsb (String.eqb "application") names)
  /\ explicit opts' = (explicit opts || existsb (String.eqb "explicit") names)
  /\ indefinite opts' = (indefinite opts || existsb (String.eqb "indefinite") names)
  /\ optional opts' = (optional opts || existsb (String.eqb "optional") names)
  /\ unique opts' = (unique opts || existsb (String.eqb "unique") names)
  /\ set opts' = (set opts || existsb (String.eqb "set") names)
  /\ isSome (tag opts') = (isSome (tag opts) || existsb (String.eqb "tag") names)
  /\ isSome (defaultValue opts')
     = (isSome (defaultValue opts) || existsb (String.eqb "default") names)
  /\ isSome (choice opts') = (isSome (choice opts) || existsb (String.eqb "choice") names)
  /\ isSome (choices opts')
     = (isSome (choices opts) || existsb (String.eqb "choices") names)
  /\ isSome (variant opts')
     = (isSome (variant opts) || existsb (String.eqb "variant") names).
Proof.
  induction tokens as [|token rest IH]; intros opts opts' H; simpl in *.
  - injection H as <-. rewrite !orb_false_r. repeat split.
  - apply bind_Ok in H. destruct H as (o1 & H1 & H2).
    apply parseOption_presence in H1. apply IH in H2.
    destruct H1 as (A1 & A2 & A3 & A4 & A5 & A6 & A7 & A8 & A9 & A10 & A11 & A12).
    destruct H2 as (B1 & B2 & B3 & B4 & B5 & B6 & B7 & B8 & B9 & B10 & B11 & B12).
    rewrite B1, B2, B3, B4, B5, B6, B7, B8, B9, B10, B11, B12.
    rewrite A1, A2, A3, A4, A5, A6, A7, A8, A9, A10, A11, A12.
    rewrite !orb_assoc. repeat split.
Qed.

(** What [validate] lets through, and what [strconv.Atoi] returns: a
    parsed option set has a tag whenever it has [universal] or
    [application], its tag is a non-negative [int], so that [uint] leaves
    it as written, and its choice name is not empty. *)
Theorem parsed_options_are_valid (s : string) (opts : fieldOptions) :
  parseOptions s = Ok (Some opts) ->
  (universal opts = true -> tag opts <> None)
  /\ (application opts = true -> tag opts <> None)
  /\ (forall t, tag opts = Some t -> 0 <= t <= 2 ^ 63 - 1 /\ uint t = t)
  /\ choice opts <> Some "".
Proof.
  unfold parseOptions. destruct (String.eqb s "-"); [discriminate|].
  intros H. apply bind_Ok in H. destruct H as (o & Ho & H).
  destruct (validate o) as [e|] eqn:V; [discriminate|]. injection H as <-.
  assert (R : inIntRange (tag o)).
  { eapply parseTokens_range; [exact Ho|]. intros t E. discriminate. }
  split; [|split; [|split]].
  - intros U T. unfold validate in V. rewrite U, T in V. discriminate.
  - intros A T. unfold validate in V. rewrite A, T in V.
    destruct (universal o); discriminate.
  - intros t T. pose proof (R t T) as Rt.
    assert (N : 0 <= t).
    { unfold validate in V. rewrite T in V.
      destruct (universal o), (application o); simpl in V;
        (destruct (t <? 0) eqn:N; [discriminate|apply Z.ltb_ge in N; exact N]). }
    split; [lia|]. unfold uint. apply Z.mod_small. lia.
  - intros C. unfold validate in V. rewrite C in V.
    destruct (universal o), (application o), (tag o) as [t|]; simpl in V;
      try discriminate; destruct (t <? 0); discriminate.
Qed.

(** The ignore tag is the exact string of one dash: no other directive
    string parses to "no options". *)
Theorem ignore_tag_is_the_single_dash (s : string) :
  parseOptions s = Ok None <-> s = "-".
Proof.
  split.
  - unfold parseOptions. destruct (String.eqb_spec s "-") as [E|_]; [auto|].
    intros H. apply bind_Ok in H. destruct H as (o & _ & H).
    destruct (validate o); discriminate.
  - intros ->. reflexivity.
Qed.

(** The names that a parsed option set carries are the names of the
    tokens: a flag is set exactly when a token bears its name, and a
    valued option is present exactly when a token bears its name. *)
Theorem parsed_options_follow_the_names (s : string) (opts : fieldOptions) :
  parseOptions s = Ok (Some opts) ->
  universal opts = hasOption "universal" s
  /\ application opts = hasOption "application" s
  /\ explicit opts = hasOption "explicit" s
  /\ indefinite opts = hasOption "indefinite" s
  /\ optional opts = hasOption "optional" s
  /\ unique opts = hasOption "unique" s
  /\ set opts = hasOption "set" s
  /\ isSome (tag opts) = hasOption "tag" s
  /\ isSome (defaultValue opts) = hasOption "default" s
  /\ isSome (choice opts) = hasOption "choice" s
  /\ isSome (choices opts) = hasOption "choices" s
  /\ isSome (variant opts) = hasOption "variant" s.
Proof.
  unfold parseOptions, hasOption, optionNames.
  destruct (String.eqb s "-"); [discriminate|].
  intros H. apply bind_Ok in H. destruct H as (o & Ho & H).
  destruct (validate o); [discriminate|]. injection H as <-.
  apply parseTokens_presence in Ho. exact Ho.
Qed.

Lemma parsed_options_follow_the_names_witness :
  parseOptions "tag:3, optional,choice:c"
  = Ok (Some (Sample.options "tag:3,optional,choice:c"))
  /\ optional (Sample.options "tag:3,optional,choice:c") = true
  /\ explicit (Sample.options "tag:3,optional,choice:c") = false
  /\ isSome (tag (Sample.options "tag:3,optional,choice:c")) = true
  /\ isSome (variant (Sample.options "tag:3,optional,choice:c")) = false.
Proof.
  split; [reflexivity|].
  pose proof (parsed_options_follow_the_names "tag:3, optional,choice:c"
                (Sample.options "tag:3,optional,choice:c") eq_refl)
    as (_ & _ & A3 & _ & A5 & _ & _ & A8 & _ & _ & _ & A12).
  split; [rewrite A5; reflexivity|].
  split; [rewrite A3; reflexivity|].
  split; [rewrite A8; reflexivity|rewrite A12; reflexivity].
Defined.

Lemma parsed_options_are_valid_witness :
  parseOptions "universal,tag:7" = Ok (Some (Sample.options "universal,tag:7"))
  /\ tag (Sample.options "universal,tag:7") <> None
  /\ uint 7 = 7.
Proof.
  split; [reflexivity|].
  pose proof (parsed_options_are_valid "universal,tag:7"
                (Sample.options "universal,tag:7") eq_refl) as (A & _ & C & _).
  split; [apply A; reflexivity|].
  apply (C 7 eq_refl).
Defined.

Lemma parseOption_syntaxOnly (opts : fieldOptions) (args : list string) :
  args <> [] -> syntaxOnly (parseOption opts args).
Proof.
  destruct args as [|a0 rest]; [congruence|]. intros _.
  unfold parseOption.
  repeat match goal with
         | |- context [if String.eqb ?a ?b then _ else _] =>
             destruct (String.eqb a b)
         end;
    try exact I;
    unfold parseBoolOption, parseIntOption, parseStringOption;
    repeat match goal with
           | |- context [if ?c then _ else _] => destruct c
           | |- context [match ?l with [] => _ | _ :: _ => _ end] => destruct l
           | |- context [match Atoi ?a with Some _ => _ | None => _ end] =>
               destruct (Atoi a)
           end;
    exact I.
Qed.

Lemma parseTokens_syntaxOnly (tokens : list string) :
  forall opts, syntaxOnly (parseTokens opts tokens).
Proof.
  induction tokens as [|token rest IH]; intros opts; simpl; [exact I|].
  pose proof (parseOption_syntaxOnly opts (Split (TrimSpace token) ":")
                (Split_nonempty _ _)) as H.
  destruct (parseOption opts (Split (TrimSpace token) ":")) as [o| [f a|m] | |];
    simpl in *; try contradiction; [apply IH|exact I].
Qed.

Lemma validate_syntax (opts : fieldOptions) (e : error) :
  validate opts = Some e -> exists format args, e = SyntaxError format args.
Proof.
  unfold validate, syntaxError.
  destruct (universal opts), (application opts), (tag opts) as [t|],
    (choice opts) as [c|]; simpl;
    try (destruct (t <? 0)); try (destruct (String.eqb c ""));
    intros H; try discriminate; injection H as <-; eauto.
Qed.

Lemma parseOptions_outcome (s : string) :
  (exists r, parseOptions s = Ok r)
  \/ (exists format args, parseOptions s = Err (SyntaxError format args)).
Proof.
  unfold parseOptions. destruct (String.eqb s "-"); [left; eauto|].
  pose proof (parseTokens_syntaxOnly (Split s ",") zeroOptions) as H.
  destruct (parseTokens zeroOptions (Split s ",")) as [o| [f a|m] | |];
    simpl in *; try contradiction.
  - destruct (validate o) as [e|] eqn:V; [|left; eauto].
    right. apply validate_syntax in V. destruct V as (f & a & ->). eauto.
  - right. eauto.
Qed.

(** [parseOptions] never panics, whatever the string: [args[0]] always
    exists, for [strings.Split] returns at least one piece. Every failure
    is a syntax error. *)
Theorem parseOptions_fails_only_with_syntax_errors (s : string) :
  (exists r, parseOptions s = Ok r)
  \/ (exists format args, parseOptions s = Err (SyntaxError format args)).
Proof.
  unfold parseOptions. destruct (String.eqb s "-"); [left; eauto|].
  pose proof (parseTokens_syntaxOnly (Split s ",") zeroOptions) as H.
  destruct (parseTokens zeroOptions (Split s ",")) as [o| [f a|m] | |];
    simpl in *; try contradiction.
  - destruct (validate o) as [e|] eqn:V; [|left; eauto].
    right. apply validate_syntax in V. destruct V as (f & a & ->). eauto.
  - right. eauto.
Qed.

Lemma parseOption_wrongArity (opts : fieldOptions) (args : list string) :
  wrongArity args = true -> forall opts', parseOption opts args <> Ok opts'.
Proof.
  intros W opts' H. unfold parseOption in H.
  destruct args as [|a0 rest]; [discriminate|].
  unfold wrongArity in W. simpl hd in W.
  parse_case H;
    try (apply bind_Ok in H; destruct H as (b & Hb & H));
    try discriminate.
  all: try (unfold parseBoolOption in Hb;
            destruct (1 <? List.length (_ :: rest))%nat eqn:L;
            [discriminate|]; simpl in W; rewrite L in W; discriminate).
  all: try (unfold parseIntOption in Hb;
            destruct rest as [|a1 [|a2 rest]]; simpl in W; discriminate).
  all: try (unfold parseStringOption in Hb;
            destruct rest as [|a1 [|a2 rest]]; simpl in W; discriminate).
Qed.

Lemma parseTokens_Ok_each (tokens : list string) :
  forall opts opts', parseTokens opts tokens = Ok opts' ->
  forall token, In token tokens ->
  exists o1 o2, parseOption o1 (Split (TrimSpace token) ":") = Ok o2.
Proof.
  induction tokens as [|t rest IH]; intros opts opts' H token Hin;
    [contradiction|].
  simpl in H. apply bind_Ok in H. destruct H as (o1 & H1 & H2).
  destruct Hin as [<-|Hin]; [eauto|]. eapply IH; eauto.
Qed.

(** A flag that is given a value, or a valued option that is given none or
    more than one, makes the whole directive string a syntax error,
    wherever the token stands. *)
Theorem token_of_wrong_arity_is_a_syntax_error (s : string) :
  existsb wrongArity (tokenArgs s) = true ->
  exists format args, parseOptions s = Err (SyntaxError format args).
Proof.
  intros W.
  destruct (parseOptions_outcome s) as [(r & H)|H];
    [exfalso|exact H].
  unfold parseOptions in H.
  destruct (String.eqb_spec s "-") as [->|_]; [discriminate|].
  apply bind_Ok in H. destruct H as (o & Ho & _).
  unfold tokenArgs in W. apply existsb_exists in W.
  destruct W as (args & Hin & W). apply in_map_iff in Hin.
  destruct Hin as (token & <- & Hin).
  destruct (parseTokens_Ok_each _ _ _ Ho token Hin) as (o1 & o2 & H).
  exact (parseOption_wrongArity o1 _ W o2 H).
Qed.

Lemma token_of_wrong_arity_witness :
  existsb wrongArity (tokenArgs "tag:1, optional:yes") = true
  /\ existsb wrongArity (tokenArgs "explicit,tag") = true
  /\ (exists format args,
        parseOptions "tag:1, optional:yes" = Err (SyntaxError format args))
  /\ (exists format args,
        parseOptions "explicit,tag" = Err (SyntaxError format args)).
Proof.
  split; [reflexivity|]. split; [reflexivity|]. split.
  - apply token_of_wrong_arity_is_a_syntax_error. reflexivity.
  - apply token_of_wrong_arity_is_a_syntax_error. reflexivity.
Defined.

Lemma parseOption_comm (opts o1 o12 : fieldOptions) (a1 a2 : list string) :
  hd "" a1 <> hd "" a2 ->
  parseOption opts a1 = Ok o1 -> parseOption o1 a2 = Ok o12 ->
  exists o2, parseOption opts a2 = Ok o2 /\ parseOption o2 a1 = Ok o12.
Proof.
  intros Hne H1 H2. unfold parseOption in H1, H2.
  destruct a1 as [|n1 r1]; [discriminate|].
  destruct a2 as [|n2 r2]; [discriminate|].
  simpl hd in Hne.
  parse_case H1;
    try (apply bind_Ok in H1; destruct H1 as (b1 & Hb1 & H1));
    try discriminate; injection H1 as <-;
    parse_case H2;
    try (apply bind_Ok in H2; destruct H2 as (b2 & Hb2 & H2));
    try discriminate; injection H2 as <-;
    try congruence;
    eexists;
    (split;
     [ unfold parseOption;
       cbv -[parseBoolOption parseIntOption parseStringOption];
       rewrite ?Hb2; reflexivity
     | unfold parseOption;
       cbv -[parseBoolOption parseIntOption parseStringOption];
       rewrite ?Hb1; reflexivity ]).
Qed.

Lemma parseTokens_Permutation (tokens1 tokens2 : list string) :
  Permutation tokens1 tokens2 ->
  NoDup (map (fun token => hd "" (Split (TrimSpace token) ":")) tokens1) ->
  forall opts r, parseTokens opts tokens1 = Ok r -> parseTokens opts tokens2 = Ok r.
Proof.
  induction 1 as [|x l l' P IH|x y l|l l' l'' P1 IH1 P2 IH2]; intros N opts r H.
  - exact H.
  - simpl in *. apply bind_Ok in H. destruct H as (o1 & H1 & H2).
    rewrite H1. simpl. apply IH; [inversion N; assumption|exact H2].
  - simpl in *. apply bind_Ok in H. destruct H as (o1 & H1 & H).
    apply bind_Ok in H. destruct H as (o2 & H2 & H3).
    assert (Hne : hd "" (Split (TrimSpace y) ":") <> hd "" (Split (TrimSpace x) ":")).
    { inversion N as [|a b Hnot _]; subst. intros E. apply Hnot. left.
      symmetry. exact E. }
    destruct (parseOption_comm _ _ _ _ _ Hne H1 H2) as (o' & A & B).
    rewrite A. simpl. rewrite B. simpl. exact H3.
  - apply IH2; [|apply IH1; assumption].
    eapply Permutation_NoDup; [|exact N]. apply Permutation_map. exact P1.
Qed.

(** Tokens of pairwise distinct names can stand in any order: a directive
    string that parses gives the same option set after its tokens are
    reordered. *)
Theorem token_order_is_irrelevant (s1 s2 : string) (opts : fieldOptions) :
  Permutation (Split s1 ",") (Split s2 ",") ->
  NoDup (optionNames s1) ->
  parseOptions s1 = Ok (Some opts) ->
  parseOptions s2 = Ok (Some opts).
Proof.
  intros P N H. unfold parseOptions in *.
  destruct (String.eqb s1 "-"); [discriminate|].
  apply bind_Ok in H. destruct H as (o & Ho & H).
  pose proof (parseTokens_Permutation _ _ P N _ _ Ho) as Ho2.
  destruct (String.eqb_spec s2 "-") as [->|_].
  - simpl in Ho2. discriminate.
  - rewrite Ho2. exact H.
Qed.

Lemma token_order_witness :
  Permutation (Split "tag:1,optional, choice:c" ",")
    (Split " choice:c,tag:1,optional" ",")
  /\ NoDup (optionNames "tag:1,optional, choice:c")
  /\ parseOptions "tag:1,optional, choice:c"
     = Ok (Some (Sample.options "optional,tag:1,choice:c"))
  /\ parseOptions " choice:c,tag:1,optional"
     = Ok (Some (Sample.options "optional,tag:1,choice:c")).
Proof.
  assert (P : Permutation (Split "tag:1,optional, choice:c" ",")
                (Split " choice:c,tag:1,optional" ",")).
  { vm_compute.
    apply (Permutation_app_comm ["tag:1"; "optional"] [" choice:c"]). }
  assert (N : NoDup (optionNames "tag:1,optional, choice:c")).
  { vm_compute.
    repeat (constructor;
            [ simpl; intros H;
              repeat (destruct H as [H|H]; [discriminate H|]); exact H | ]).
    constructor. }
  split; [exact P|]. split; [exact N|]. split; [reflexivity|].
  apply (token_order_is_irrelevant "tag:1,optional, choice:c" _ _ P N).
  reflexivity.
Defined.

(* ================================================================= *)
(** ** From options to a directive string and back *)

Lemma digitChar_facts (d : Z) :
  0 <= d < 10 ->
  isDigit (digitChar d) = true
  /\ Z.of_nat (nat_of_ascii (digitChar d)) - 48 = d
  /\ plainChar (digitChar d) = true
  /\ Ascii.eqb (digitChar d) "-" = false
  /\ Ascii.eqb (digitChar d) "+" = false.
Proof.
  intros H.
  assert (E : d = 0 \/ d = 1 \/ d = 2 \/ d = 3 \/ d = 4 \/ d = 5 \/ d = 6
              \/ d = 7 \/ d = 8 \/ d = 9) by lia.
  repeat (destruct E as [->|E]; [repeat split|]). subst. repeat split.
Qed.

Lemma digits_app (s1 s2 : string) :
  forall a,
  digits (s1 ++ s2)%string a
  = match digits s1 a with
    | Some a' => digits s2 a'
    | None => None
    end.
Proof.
  induction s1 as [|c r IH]; intros a; simpl; [reflexivity|].
  destruct (isDigit c); [apply IH|reflexivity].
Qed.

Lemma append_assoc (a b c : string) :
  ((a ++ b) ++ c)%string = (a ++ (b ++ c))%string.
Proof. induction a as [|x a IH]; simpl; [reflexivity|]. rewrite IH. reflexivity. Qed.

Lemma append_empty_r (a : string) : (a ++ "")%string = a.
Proof. induction a as [|x a IH]; simpl; [reflexivity|]. rewrite IH. reflexivity. Qed.

Lemma utoa_acc (fuel : nat) :
  forall n acc, utoa fuel n acc = (utoa fuel n "" ++ acc)%string.
Proof.
  induction fuel as [|fuel IH]; intros n acc; simpl; [reflexivity|].
  destruct (n <? 10); [reflexivity|].
  rewrite IH. rewrite (IH _ (String _ "")). rewrite append_assoc. reflexivity.
Qed.

Lemma digits_utoa (fuel : nat) :
  forall n, 0 <= n < 10 ^ Z.of_nat fuel -> digits (utoa fuel n "") 0 = Some n.
Proof.
  induction fuel as [|fuel IH]; intros n H.
  - change (10 ^ Z.of_nat 0) with 1 in H.
    assert (n = 0) by lia. subst. reflexivity.
  - rewrite Nat2Z.inj_succ, Z.pow_succ_r in H by lia.
    remember (10 ^ Z.of_nat fuel) as p eqn:Hp.
    assert (D : 0 <= n mod 10 < 10) by (apply Z.mod_pos_bound; lia).
    destruct (digitChar_facts _ D) as (D1 & D2 & _).
    cbn [utoa]. cbv zeta.
    destruct (n <? 10) eqn:L.
    + apply Z.ltb_lt in L. cbn [digits]. rewrite D1, D2.
      rewrite Z.mod_small by lia. reflexivity.
    + apply Z.ltb_ge in L. rewrite utoa_acc, digits_app.
      rewrite IH.
      * cbn [digits]. rewrite D1, D2. f_equal.
        pose proof (Z.div_mod n 10). lia.
      * split; [apply Z.div_pos; lia|].
        apply Z.div_lt_upper_bound; lia.
Qed.

Lemma utoa_plain (fuel : nat) :
  forall n, 0 <= n -> plainString (utoa fuel n "") = true.
Proof.
  assert (A : forall s1 s2, plainString (s1 ++ s2)%string
                            = plainString s1 && plainString s2).
  { induction s1 as [|c r IH]; intros s2; simpl; [reflexivity|].
    rewrite IH, andb_assoc. reflexivity. }
  induction fuel as [|fuel IH]; intros n H; [reflexivity|].
  cbn [utoa]. cbv zeta.
  assert (D : 0 <= n mod 10 < 10) by (apply Z.mod_pos_bound; lia).
  destruct (digitChar_facts _ D) as (_ & _ & D3 & _).
  destruct (n <? 10).
  - cbn [plainString]. rewrite D3. reflexivity.
  - rewrite utoa_acc, A. rewrite IH by (apply Z.div_pos; lia).
    cbn [plainString]. rewrite D3. reflexivity.
Qed.

Lemma utoa_head (fuel : nat) :
  forall n acc, 0 <= n ->
  exists d r, 0 <= d < 10 /\ utoa (S fuel) n acc = String (digitChar d) r.
Proof.
  induction fuel as [|fuel IH]; intros n acc H.
  - cbn [utoa]. cbv zeta. exists (n mod 10).
    assert (D : 0 <= n mod 10 < 10) by (apply Z.mod_pos_bound; lia).
    destruct (n <? 10); eauto.
  - change (utoa (S (S fuel)) n acc)
      with (let acc' := String (digitChar (n mod 10)) acc in
            if n <? 10 then acc' else utoa (S fuel) (n / 10) acc').
    assert (D : 0 <= n mod 10 < 10) by (apply Z.mod_pos_bound; lia).
    cbv zeta. destruct (n <? 10); [eauto|].
    apply IH. apply Z.div_pos; lia.
Qed.

(** [strconv.Atoi] reads back what [strconv.Itoa] writes. *)
Lemma Atoi_Itoa (t : Z) : 0 <= t <= 2 ^ 63 - 1 -> Atoi (Itoa t) = Some t.
Proof.
  intros H. unfold Itoa.
  destruct (t <? 0) eqn:N; [apply Z.ltb_lt in N; lia|].
  destruct (utoa_head 19 t "" (proj1 H)) as (d & r & D & E).
  pose proof (digits_utoa 20 t) as G. rewrite E in *.
  destruct (digitChar_facts _ D) as (_ & _ & _ & M & P).
  unfold Atoi. rewrite M, P. simpl orb. cbv iota.
  rewrite G by (change (10 ^ Z.of_nat 20) with 100000000000000000000; lia).
  destruct ((- 2 ^ 63 <=? t) && (t <=? 2 ^ 63 - 1)) eqn:R; [reflexivity|].
  apply andb_false_iff in R. destruct R as [R|R];
    [apply Z.leb_gt in R|apply Z.leb_gt in R]; lia.
Qed.

Lemma plainString_lacks (s : string) :
  plainString s = true -> lacks "," s = true /\ lacks ":" s = true.
Proof.
  induction s as [|c r IH]; simpl; [auto|].
  unfold plainChar. intros H.
  apply andb_prop in H. destruct H as [H Hr].
  apply andb_prop in H. destruct H as [H H4].
  apply andb_prop in H. destruct H as [_ H3].
  destruct (IH Hr) as [A B]. rewrite A, B, H3, H4. auto.
Qed.

Lemma Split_lacks (sep : ascii) (s : string) :
  lacks sep s = true -> Split s sep = [s].
Proof.
  induction s as [|c r IH]; simpl; [reflexivity|].
  intros H. apply andb_prop in H. destruct H as [H Hr].
  apply negb_true_iff in H. rewrite H, (IH Hr). reflexivity.
Qed.

Lemma Split_app_sep (sep : ascii) (a s : string) :
  lacks sep a = true ->
  Split (a ++ String sep s)%string sep = a :: Split s sep.
Proof.
  induction a as [|c r IH]; simpl.
  - intros _. rewrite Ascii.eqb_refl. reflexivity.
  - intros H. apply andb_prop in H. destruct H as [H Hr].
    apply negb_true_iff in H. rewrite H, (IH Hr). reflexivity.
Qed.

Lemma Split_Join (pieces : list string) :
  pieces <> [] -> Forall (fun p => lacks "," p = true) pieces ->
  Split (Join pieces ",") "," = pieces.
Proof.
  induction pieces as [|a rest IH]; intros N F; [congruence|].
  inversion F as [|x l Ha Hrest]; subst.
  destruct rest as [|b rest].
  - simpl. apply Split_lacks. exact Ha.
  - change (Join (a :: b :: rest) ",")
      with (a ++ String "," (Join (b :: rest) ","))%string.
    rewrite Split_app_sep by exact Ha. f_equal.
    apply IH; [discriminate|exact Hrest].
Qed.

Lemma parseTokens_app (l1 l2 : list string) :
  forall opts,
  parseTokens opts (l1 ++ l2)
  = (o <- parseTokens opts l1 ;; parseTokens o l2).
Proof.
  induction l1 as [|t l1 IH]; intros opts; simpl; [reflexivity|].
  destruct (parseOption opts (Split (TrimSpace t) ":")); simpl; auto.
Qed.

Lemma string_of_list_ascii_app (l1 l2 : list ascii) :
  string_of_list_ascii (l1 ++ l2)
  = (string_of_list_ascii l1 ++ string_of_list_ascii l2)%string.
Proof. induction l1 as [|c l1 IH]; simpl; [reflexivity|]. rewrite IH. reflexivity. Qed.

Lemma list_ascii_of_string_app (s1 s2 : string) :
  list_ascii_of_string (s1 ++ s2)%string
  = list_ascii_of_string s1 ++ list_ascii_of_string s2.
Proof. induction s1 as [|c s1 IH]; simpl; [reflexivity|]. rewrite IH. reflexivity. Qed.

(** A byte of the ASCII range that is not white space ends no white
    space rune: [trimRev] stops on it. *)
Lemma trimRev_keeps (c : ascii) (r : list ascii) :
  (nat_of_ascii c <? 128)%nat = true -> asciiSpace c = false ->
  trimRev (c :: r) = c :: r.
Proof.
  intros H A. cbn [trimRev]. rewrite A.
  assert (F : byte_in c ["133"; "160"]%char = false
              /\ Ascii.eqb c "128" = false
              /\ Ascii.eqb c "159" = false
              /\ (128 <=? nat_of_ascii c)%nat = false
              /\ byte_in c ["168"; "169"; "175"]%char = false).
  { destruct c as [b0 b1 b2 b3 b4 b5 b6 b7].
    destruct b7;
      [destruct b0, b1, b2, b3, b4, b5, b6; vm_compute in H; discriminate|].
    destruct b0, b1, b2, b3, b4, b5, b6; vm_compute; auto. }
  destruct F as (F1 & F2 & F3 & F4 & F5).
  assert (S2 : forall d, space2 d c = false).
  { intros d. unfold space2. rewrite F1. apply andb_false_r. }
  assert (S3 : forall e d, space3 e d c = false).
  { intros e d. unfold space3. rewrite F2, F3, F4, F5. simpl.
    rewrite !andb_false_r. reflexivity. }
  destruct r as [|d r2]; [reflexivity|]. rewrite S2.
  destruct r2 as [|e r3]; [reflexivity|]. rewrite S3. reflexivity.
Qed.

Lemma TrimRight_plain (p v : string) :
  TrimRight p = p -> plainString v = true ->
  TrimRight (p ++ v)%string = (p ++ v)%string.
Proof.
  intros Hp Hv. destruct v as [|c0 v0]; [rewrite append_empty_r; exact Hp|].
  unfold TrimRight. rewrite list_ascii_of_string_app, rev_app_distr.
  assert (F : Forall (fun c => plainChar c = true)
                (list_ascii_of_string (String c0 v0))).
  { clear Hp. revert Hv. generalize (String c0 v0). intros s.
    induction s as [|c r IH]; simpl; intros H; constructor.
    - apply andb_prop in H. tauto.
    - apply IH. apply andb_prop in H. tauto. }
  destruct (rev (list_ascii_of_string (String c0 v0))) as [|c r] eqn:E.
  - apply (f_equal (@List.length ascii)) in E. rewrite length_rev in E.
    simpl in E. discriminate.
  - assert (Pc : plainChar c = true).
    { rewrite Forall_forall in F. apply F. apply in_rev. rewrite E.
      left. reflexivity. }
    unfold plainChar in Pc.
    apply andb_prop in Pc. destruct Pc as [Pc _].
    apply andb_prop in Pc. destruct Pc as [Pc _].
    apply andb_prop in Pc. destruct Pc as [P1 P2].
    apply negb_true_iff in P2.
    simpl app. rewrite trimRev_keeps by assumption.
    change (c :: r ++ rev (list_ascii_of_string p))
      with ((c :: r) ++ rev (list_ascii_of_string p)).
    rewrite <- E, <- rev_app_distr, rev_involutive.
    rewrite <- list_ascii_of_string_app.
    apply string_of_list_ascii_of_string.
Qed.

Lemma Itoa_plain (t : Z) : 0 <= t -> plainString (Itoa t) = true.
Proof.
  intros H. unfold Itoa.
  destruct (t <? 0) eqn:N; [apply Z.ltb_lt in N; lia|].
  apply utoa_plain. exact H.
Qed.

(** The arguments of a token [name:v] whose value is plain. *)
Lemma valued_token_args (name v : string) :
  (forall w, TrimLeft (name ++ String ":" w)%string = (name ++ String ":" w)%string) ->
  TrimRight (name ++ ":")%string = (name ++ ":")%string ->
  lacks ":" name = true ->
  plainString v = true ->
  Split (TrimSpace (name ++ String ":" v)%string) ":" = [name; v].
Proof.
  intros HL HR Hn Hv. unfold TrimSpace. rewrite HL.
  replace (name ++ String ":" v)%string with ((name ++ ":") ++ v)%string
    by (rewrite append_assoc; reflexivity).
  rewrite TrimRight_plain by assumption.
  rewrite append_assoc. change (":" ++ v)%string with (String ":" v).
  rewrite Split_app_sep by exact Hn.
  rewrite Split_lacks by (apply plainString_lacks; exact Hv). reflexivity.
Qed.

Lemma tag_token (opts : fieldOptions) (v : string) (t : Z) :
  plainString v = true -> Atoi v = Some t ->
  parseTokens opts [("tag:" ++ v)%string] = Ok (set_tag (Some t) opts).
Proof.
  intros Hv Ha. cbn [parseTokens].
  change ("tag:" ++ v)%string with ("tag" ++ String ":" v)%string.
  rewrite valued_token_args; try reflexivity; [|exact Hv].
  unfold parseOption. cbn [String.eqb Ascii.eqb Bool.eqb andb].
  unfold parseIntOption. rewrite Ha. reflexivity.
Qed.

Lemma choice_token (opts : fieldOptions) (v : string) :
  plainString v = true ->
  parseTokens opts [("choice:" ++ v)%string] = Ok (set_choice (Some v) opts).
Proof.
  intros Hv. cbn [parseTokens].
  change ("choice:" ++ v)%string with ("choice" ++ String ":" v)%string.
  rewrite valued_token_args; try reflexivity. exact Hv.
Qed.

Lemma choices_token (opts : fieldOptions) (v : string) :
  plainString v = true ->
  parseTokens opts [("choices:" ++ v)%string] = Ok (set_choices (Some v) opts).
Proof.
  intros Hv. cbn [parseTokens].
  change ("choices:" ++ v)%string with ("choices" ++ String ":" v)%string.
  rewrite valued_token_args; try reflexivity. exact Hv.
Qed.

Lemma variant_token (opts : fieldOptions) (v : string) :
  plainString v = true ->
  parseTokens opts [("variant:" ++ v)%string] = Ok (set_variant (Some v) opts).
Proof.
  intros Hv. cbn [parseTokens].
  change ("variant:" ++ v)%string with ("variant" ++ String ":" v)%string.
  rewrite valued_token_args; try reflexivity. exact Hv.
Qed.

Lemma lacks_valued (name v : string) :
  lacks "," name = true -> plainString v = true ->
  lacks "," (name ++ v)%string = true.
Proof.
  intros Hn Hv. induction name as [|c r IH]; simpl in *.
  - apply plainString_lacks. exact Hv.
  - apply andb_prop in Hn. destruct Hn as [H Hr]. rewrite H, (IH Hr). reflexivity.
Qed.

Lemma append_if {A : Type} (b : bool) (r : list A) (x : A) :
  (if b then r ++ [x] else r) = r ++ (if b then [x] else []).
Proof. destruct b; [reflexivity|rewrite app_nil_r; reflexivity]. Qed.

Lemma append_option {A B : Type} (o : option B) (r : list A) (f : B -> A) :
  match o with Some t => r ++ [f t] | None => r end
  = r ++ match o with Some t => [f t] | None => [] end.
Proof. destruct o; [reflexivity|rewrite app_nil_r; reflexivity]. Qed.

Lemma fieldOptions_String_tokens (opts : fieldOptions) :
  fieldOptions_String opts = Join (directiveTokens opts) ",".
Proof.
  unfold fieldOptions_String, directiveTokens. cbv zeta. f_equal.
  rewrite !append_if.
  rewrite (append_option (tag opts) _ (fun t => ("tag:" ++ Itoa t)%string)).
  rewrite (append_option (choice opts) _ (fun c => ("choice:" ++ c)%string)).
  rewrite (append_option (choices opts) _ (fun c => ("choices:" ++ c)%string)).
  rewrite (append_option (variant opts) _ (fun v => ("variant:" ++ v)%string)).
  rewrite <- !app_assoc. reflexivity.
Qed.

Lemma directiveTokens_lack_commas (opts : fieldOptions) :
  (forall t, tag opts = Some t -> 0 <= t) ->
  plainName (choice opts) = true -> plainName (choices opts) = true ->
  plainName (variant opts) = true ->
  Forall (fun p => lacks "," p = true) (directiveTokens opts).
Proof.
  intros Ht Hc Hcs Hv. unfold directiveTokens.
  repeat (apply Forall_app; split);
    try (match goal with |- Forall _ (if ?b then _ else _) => destruct b end;
         repeat constructor).
  - destruct (tag opts) as [t|]; repeat constructor.
    apply (lacks_valued "tag:"); [reflexivity|]. apply Itoa_plain. auto.
  - destruct (choice opts) as [c|]; repeat constructor.
    apply (lacks_valued "choice:"); [reflexivity|exact Hc].
  - destruct (choices opts) as [c|]; repeat constructor.
    apply (lacks_valued "choices:"); [reflexivity|exact Hcs].
  - destruct (variant opts) as [v|]; repeat constructor.
    apply (lacks_valued "variant:"); [reflexivity|exact Hv].
Qed.

Lemma parseTokens_directiveTokens (opts : fieldOptions) :
  (forall t, tag opts = Some t -> 0 <= t <= 2 ^ 63 - 1) ->
  plainName (choice opts) = true -> plainName (choices opts) = true ->
  plainName (variant opts) = true ->
  parseTokens zeroOptions (directiveTokens opts)
  = Ok (set_defaultValue None opts).
Proof.
  intros Ht Hc Hcs Hv. unfold directiveTokens.
  destruct opts as [u a e i op un s t d c cs v]. cbn [universal application
    explicit indefinite optional unique set tag choice choices variant] in *.
  unfold set_defaultValue. cbn [universal application explicit indefinite
    optional unique set tag choice choices variant].
  rewrite parseTokens_app.
  replace (parseTokens zeroOptions (if u then ["universal"] else []))
    with (Ok (mkOptions u false false false false false false None None None None None))
    by (destruct u; reflexivity).
  rewrite bind_Ok_l, parseTokens_app.
  match goal with |- context [parseTokens ?o (if a then _ else _)] =>
    replace (parseTokens o (if a then ["application"] else []))
      with (Ok (mkOptions u a false false false false false None None None None None))
      by (destruct a; reflexivity) end.
  rewrite bind_Ok_l, parseTokens_app.
  match goal with |- context [parseTokens ?o (if e then _ else _)] =>
    replace (parseTokens o (if e then ["explicit"] else []))
      with (Ok (mkOptions u a e false false false false None None None None None))
      by (destruct e; reflexivity) end.
  rewrite bind_Ok_l, parseTokens_app.
  match goal with |- context [parseTokens ?o (if i then _ else _)] =>
    replace (parseTokens o (if i then ["indefinite"] else []))
      with (Ok (mkOptions u a e i false false false None None None None None))
      by (destruct i; reflexivity) end.
  rewrite bind_Ok_l, parseTokens_app.
  match goal with |- context [parseTokens ?o (if op then _ else _)] =>
    replace (parseTokens o (if op then ["optional"] else []))
      with (Ok (mkOptions u a e i op false false None None None None None))
      by (destruct op; reflexivity) end.
  rewrite bind_Ok_l, parseTokens_app.
  match goal with |- context [parseTokens ?o (if un then _ else _)] =>
    replace (parseTokens o (if un then ["unique"] else []))
      with (Ok (mkOptions u a e i op un false None None None None None))
      by (destruct un; reflexivity) end.
  rewrite bind_Ok_l, parseTokens_app.
  match goal with |- context [parseTokens ?o (if s then _ else _)] =>
    replace (parseTokens o (if s then ["set"] else []))
      with (Ok (mkOptions u a e i op un s None None None None None))
      by (destruct s; reflexivity) end.
  rewrite bind_Ok_l, parseTokens_app.
  match goal with |- context [parseTokens ?o (match t with Some _ => _ | None => _ end)] =>
    replace (parseTokens o match t with
                           | Some x => [("tag:" ++ Itoa x)%string]
                           | None => []
                           end)
      with (Ok (mkOptions u a e i op un s t None None None None))
      by (destruct t as [x|]; [|reflexivity];
          rewrite (tag_token _ (Itoa x) x);
          [ reflexivity
          | apply Itoa_plain; apply (Ht x eq_refl)
          | apply Atoi_Itoa; apply (Ht x eq_refl) ]) end.
  rewrite bind_Ok_l, parseTokens_app.
  match goal with |- context [parseTokens ?o (match c with Some _ => _ | None => _ end)] =>
    replace (parseTokens o match c with
                           | Some x => [("choice:" ++ x)%string]
                           | None => []
                           end)
      with (Ok (mkOptions u a e i op un s t None c None None))
      by (destruct c as [x|]; [|reflexivity];
          rewrite choice_token by exact Hc; reflexivity) end.
  rewrite bind_Ok_l, parseTokens_app.
  match goal with |- context [parseTokens ?o (match cs with Some _ => _ | None => _ end)] =>
    replace (parseTokens o match cs with
                           | Some x => [("choices:" ++ x)%string]
                           | None => []
                           end)
      with (Ok (mkOptions u a e i op un s t None c cs None))
      by (destruct cs as [x|]; [|reflexivity];
          rewrite choices_token by exact Hcs; reflexivity) end.
  rewrite bind_Ok_l.
  destruct v as [x|]; [|reflexivity].
  rewrite variant_token by exact Hv. reflexivity.
Qed.

Lemma validate_ignores_default (opts : fieldOptions) (d : option Z) :
  validate (set_defaultValue d opts) = validate opts.
Proof. reflexivity. Qed.

(** What [String] prints parses back to the same options, the default
    value apart, which [String] does not print: for options that
    [validate] accepts, whose tag is an [int] and whose table names are
    plain (ASCII, without white space, comma or colon). *)
Theorem String_then_parseOptions (opts : fieldOptions) :
  validate opts = None ->
  (forall t, tag opts = Some t -> t <= 2 ^ 63 - 1) ->
  plainName (choice opts) = true ->
  plainName (choices opts) = true ->
  plainName (variant opts) = true ->
  parseOptions (fieldOptions_String opts) = Ok (Some (set_defaultValue None opts)).
Proof.
  intros V Ht Hc Hcs Hv.
  assert (Ht' : forall t, tag opts = Some t -> 0 <= t <= 2 ^ 63 - 1).
  { intros t T. split; [|apply Ht; exact T].
    unfold validate in V. rewrite T in V.
    destruct (universal opts), (application opts); simpl in V;
      (destruct (t <? 0) eqn:N; [discriminate|apply Z.ltb_ge in N; exact N]). }
  pose proof (parseTokens_directiveTokens opts Ht' Hc Hcs Hv) as P.
  assert (Q : parseTokens zeroOptions (Split (fieldOptions_String opts) ",")
              = Ok (set_defaultValue None opts)).
  { rewrite fieldOptions_String_tokens.
    destruct (directiveTokens opts) as [|p ps] eqn:E.
    - rewrite <- P. reflexivity.
    - rewrite Split_Join; [exact P|discriminate|].
      rewrite <- E. apply directiveTokens_lack_commas; try assumption.
      intros t T. apply (Ht' t T). }
  unfold parseOptions.
  destruct (String.eqb_spec (fieldOptions_String opts) "-") as [E|_].
  - rewrite E in Q. discriminate.
  - rewrite Q. simpl. rewrite validate_ignores_default, V. reflexivity.
Qed.

Lemma String_then_parseOptions_witness :
  validate (Sample.options "tag:12,explicit,choice:ab,default:3") = None
  /\ fieldOptions_String (Sample.options "tag:12,explicit,choice:ab,default:3")
     = "explicit,tag:12,choice:ab"
  /\ parseOptions
       (fieldOptions_String (Sample.options "tag:12,explicit,choice:ab,default:3"))
     = Ok (Some (Sample.options "tag:12,explicit,choice:ab")).
Proof.
  split; [reflexivity|]. split; [vm_compute; reflexivity|].
  refine (eq_trans
            (String_then_parseOptions
               (Sample.options "tag:12,explicit,choice:ab,default:3")
               eq_refl _ eq_refl eq_refl eq_refl) _).
  - intros t T. vm_compute in T. injection T as <-. vm_compute. discriminate.
  - vm_compute. reflexivity.
Defined.

(* ================================================================= *)
(** ** More on the encoder *)

Section Traversal.

Variable pkg : Package.
Variable ctx : Context.
Variable enc : Value -> fieldOptions -> result (option rawValue).




(** The content of a SEQUENCE OF is the concatenation of the encodings of
    its elements, in their order: [encodeSlice] and [encodeChoices] on
    [items1 ++ items2] give the bytes of [items1], then those of [items2],
    and fail with the first failure met. *)
Theorem encodeSlice_app (t1 t2 t : rtype) (n1 n2 n : bool)
  (items1 items2 : list Value) :
  encodeSlice pkg enc (VList t n (items1 ++ items2))
  = (a <- encodeSlice pkg enc (VList t1 n1 items1) ;;
     b <- encodeSlice pkg enc (VList t2 n2 items2) ;;
     Ok (a ++ b))
  /\ forall name,
       encodeChoices pkg enc name (VList t n (items1 ++ items2))
       = (a <- encodeChoices pkg enc name (VList t1 n1 items1) ;;
          b <- encodeChoices pkg enc name (VList t2 n2 items2) ;;
          Ok (a ++ b)).
Proof.
  assert (A : forall options,
             encodeItems pkg enc options (items1 ++ items2) []
             = (a <- encodeItems pkg enc options items1 [] ;;
                b <- encodeItems pkg enc options items2 [] ;;
                Ok (a ++ b))).
  { intros options. rewrite !encodeItems_acc, mapM_app. do 2 bind_step.
    cbn [app]. rewrite concat_app. reflexivity. }
  split; [|intros name]; unfold encodeSlice, encodeChoices; cbn [Elems];
    rewrite !bind_Ok_l; apply A.
Qed.

End Traversal.

Section Nodes.

Variable pkg : Package.
Variable ctx : Context.

Lemma applyOptions_wellFormed (fuel : nat) :
  forall value raw opts raw',
  wellFormed raw ->
  applyOptions pkg ctx fuel value raw opts = Ok raw' -> wellFormed raw'.
Proof.
  induction fuel as [|fuel IH]; intros value raw opts raw' W H;
    cbn [applyOptions] in H;
    apply bind_Ok in H; destruct H as (r1 & H1 & H);
    apply bind_Ok in H; destruct H as (r2 & H2 & H);
    apply bind_Ok in H; destruct H as (r3 & H3 & H).
  all: assert (W1 : wellFormed r1)
    by (destruct (set opts);
        [ destruct (negb (Class raw =? classUniversal)
                    || negb (Tag raw =? tagSequence));
          [ destruct (Type_ value); discriminate
          | injection H1 as <-; exact W ]
        | injection H1 as <-; exact W ]).
  all: assert (W2 : wellFormed r2).
  1: { destruct (choice opts) as [name|]; [|injection H2 as <-; exact W1].
       apply bind_Ok in H2. destruct H2 as (t & _ & H2).
       apply bind_Ok in H2. destruct H2 as (entry & _ & H2). discriminate. }
  2: { destruct (choice opts) as [name|]; [|injection H2 as <-; exact W1].
       apply bind_Ok in H2. destruct H2 as (t & _ & H2).
       apply bind_Ok in H2. destruct H2 as (entry & _ & H2).
       destruct (applyOptions pkg ctx fuel value r1 (entry_opts entry))
         as [r| | |] eqn:N; try discriminate.
       injection H2 as <-. apply (IH _ _ _ _ W1) in N. exact N. }
  all: assert (W3 : wellFormed r3)
    by (destruct (explicit opts);
        [ destruct (tag opts);
          [ apply bind_Ok in H3; destruct H3 as (content & _ & H3);
            injection H3 as <-; intros _; reflexivity
          | destruct (Type_ value); discriminate ]
        | injection H3 as <-; exact W2 ]).
  all: clear - W3 H; revert H;
    destruct (tag opts), (universal opts), (application opts), (indefinite opts);
    cbn [set_Class set_Tag set_Indefinite Class Tag Constructed Indefinite Content];
    try (destruct (Constructed r3) eqn:C; cbn [negb]);
    try (destruct (Type_ value)); intros H; try discriminate;
    injection H as <-; unfold wellFormed in *;
    cbn [set_Class set_Tag set_Indefinite Class Tag Constructed Indefinite Content];
    auto.
Qed.

Lemma genericEncoder_node (enc : Value -> fieldOptions -> result (option rawValue))
  (objType : rtype) (opts : fieldOptions)
  (sel : rawValue * option encoderFunction) :
  genericEncoder pkg ctx enc objType opts zeroRaw = Ok sel ->
  Indefinite (fst sel) = false /\ Class (fst sel) = classUniversal.
Proof.
  unfold genericEncoder.
  destruct (type_kind objType); try (intros H; injection H as <-; auto).
  all: destruct (Elem objType) as [elemType|]; [|discriminate].
  all: destruct (type_kind elemType);
    try (intros H; injection H as <-; split; reflexivity).
  all: intros H; apply bind_Ok in H; destruct H as (o & _ & H);
    destruct (choices o); injection H as <-; auto.
Qed.

Lemma encodeValue_node (enc : Value -> fieldOptions -> result (option rawValue))
  (value : Value) (opts : fieldOptions) (raw : rawValue) :
  encodeValue pkg ctx enc value opts = Ok raw ->
  Indefinite raw = false /\ Class raw = classUniversal.
Proof.
  unfold encodeValue. intros H.
  apply bind_Ok in H. destruct H as (objType & _ & H).
  apply bind_Ok in H. destruct H as (sel & Hs & H).
  assert (A : Indefinite (fst sel) = false /\ Class (fst sel) = classUniversal).
  { destruct (specialEncoder pkg ctx objType) as [[t e]|].
    - injection Hs as <-. auto.
    - eapply genericEncoder_node. exact Hs. }
  destruct (snd sel); [|discriminate].
  apply bind_Ok in H. destruct H as (content & _ & H). injection H as <-.
  exact A.
Qed.

(** No node that [encode] returns is marked indefinite without being
    constructed, whatever the value, the options and the tables. *)
Theorem encode_never_marks_a_primitive_indefinite (fuel : nat) (value : Value)
  (opts : fieldOptions) (raw : rawValue) :
  encode pkg ctx fuel value opts = Ok (Some raw) ->
  Indefinite raw = true -> Constructed raw = true.
Proof.
  rewrite encode_unfold. unfold encodeBody. intros H.
  apply bind_Ok in H. destruct H as (ve & _ & H).
  destruct ((optional opts || isSome (defaultValue opts)) && snd ve);
    [discriminate|].
  apply bind_Ok in H. destruct H as (r0 & H0 & H).
  apply bind_Ok in H. destruct H as (r1 & H1 & H). injection H as <-.
  apply encodeValue_node in H0. destruct H0 as [I0 _].
  assert (W0 : wellFormed r0) by (intros E; congruence).
  apply (applyOptions_wellFormed _ _ _ _ _ W0 H1).
Qed.

Lemma applyOptions_implicit_tag (fuel : nat) (value : Value) (raw : rawValue)
  (opts : fieldOptions) (n : Z) :
  tag opts = None -> explicit opts = false ->
  universal opts = false -> application opts = false ->
  indefinite opts = false ->
  applyOptions pkg ctx fuel value raw (set_tag (Some n) opts)
  = (r <- applyOptions pkg ctx fuel value raw opts ;; Ok (retag n r)).
Proof.
  intros Ht He Hu Ha Hi.
  destruct fuel; cbn [applyOptions];
    cbn [set_tag set tag choice explicit universal application indefinite];
    rewrite Ht, He, Hu, Ha, Hi; do 2 bind_step; reflexivity.
Qed.

Lemma encodeValue_ignores_tag
  (enc : Value -> fieldOptions -> result (option rawValue)) (value : Value)
  (opts : fieldOptions) (t : option Z) :
  encodeValue pkg ctx enc value (set_tag t opts)
  = encodeValue pkg ctx enc value opts.
Proof.
  unfold encodeValue. destruct (Type_ value) as [objType| | |]; try reflexivity.
  cbn [bind]. destruct (specialEncoder pkg ctx objType) as [[tg e]|];
    [reflexivity|].
  unfold genericEncoder.
  destruct (type_kind objType); try reflexivity.
  all: destruct (Elem objType) as [elemType|]; [|reflexivity].
  all: destruct (type_kind elemType); try reflexivity.
  all: cbn [set_tag choice]; destruct (choice opts); reflexivity.
Qed.

(** An implicit tag only retags: under options without default, explicit,
    class or indefinite directive, adding [tag:n] gives the node that the
    options give without it, its class set to context-specific and its tag
    to [n]; content and constructed bit are the same, and so is absence or
    failure. *)
Theorem implicit_tag_only_retags (fuel : nat) (value : Value)
  (opts : fieldOptions) (n : Z) :
  tag opts = None -> explicit opts = false ->
  universal opts = false -> application opts = false ->
  indefinite opts = false -> defaultValue opts = None ->
  encode pkg ctx fuel value (set_tag (Some n) opts)
  = (r <- encode pkg ctx fuel value opts ;; Ok (option_map (retag n) r)).
Proof.
  intros Ht He Hu Ha Hi Hd. rewrite !encode_unfold. unfold encodeBody.
  cbn [set_tag defaultValue optional]. rewrite Hd. bind_norm. cbn [fst snd].
  destruct ((optional opts || isSome None) && isEmpty (getActualType pkg value));
    [reflexivity|].
  rewrite encodeValue_ignores_tag. bind_step. rewrite applyOptions_implicit_tag by assumption.
  bind_step. reflexivity.
Qed.

End Nodes.

Section ClassOfNodes.

Variable pkg : Package.
Variable ctx : Context.

(** The class of a node is universal unless a directive says otherwise:
    without [tag], [choice] and [application], every node that [encode]
    returns is of the universal class. *)
Theorem node_is_universal_without_tagging_directive (fuel : nat)
  (value : Value) (opts : fieldOptions) (raw : rawValue) :
  tag opts = None -> choice opts = None -> application opts = false ->
  encode pkg ctx fuel value opts = Ok (Some raw) ->
  Class raw = classUniversal.
Proof.
  intros Ht Hc Ha. rewrite encode_unfold. unfold encodeBody. intros H.
  apply bind_Ok in H. destruct H as (ve & _ & H).
  destruct ((optional opts || isSome (defaultValue opts)) && snd ve);
    [discriminate|].
  apply bind_Ok in H. destruct H as (r0 & H0 & H).
  apply bind_Ok in H. destruct H as (r1 & H1 & H). injection H as <-.
  apply encodeValue_node in H0. destruct H0 as [_ C0].
  revert H1. destruct fuel; cbn [applyOptions]; rewrite Ht, Hc, Ha;
    intros H1;
    apply bind_Ok in H1; destruct H1 as (a & A & H1);
    apply bind_Ok in H1; destruct H1 as (b & B & H1);
    apply bind_Ok in H1; destruct H1 as (c & C & H1);
    injection B as <-;
    (assert (Ca : Class a = classUniversal)
      by (destruct (set opts);
          [ destruct (negb (Class r0 =? classUniversal)
                      || negb (Tag r0 =? tagSequence));
            [ destruct (Type_ (fst ve)); discriminate
            | injection A as <-; exact C0 ]
          | injection A as <-; exact C0 ]));
    (assert (Cc : Class c = classUniversal)
      by (destruct (explicit opts);
          [ destruct (Type_ (fst ve)); discriminate
          | injection C as <-; exact Ca ]));
    revert H1; destruct (universal opts), (indefinite opts);
    cbn [set_Class Class Constructed];
    try (destruct (negb (Constructed c)));
    try (destruct (Type_ (fst ve)));
    intros H1; try discriminate; injection H1 as <-; auto.
Qed.

End ClassOfNodes.

Section ClassedAgreement.

Variable pkg : Package.
Variable ctx : Context.
Variable enc : Value -> fieldOptions -> result (option rawValue).
Variable getVariantsByField : string -> string -> result (list variantEntry).




End ClassedAgreement.

Section SetDirective.

Variable pkg : Package.
Variable ctx : Context.

Lemma encodeValue_sequence_tag
  (enc : Value -> fieldOptions -> result (option rawValue)) (value : Value)
  (opts : fieldOptions) (t : rtype) (raw : rawValue) :
  Type_ value = Ok t ->
  encodeValue pkg ctx enc value opts = Ok raw ->
  Tag raw = tagSequence ->
  specialEncoder pkg ctx t = None
  /\ (type_kind t = Struct \/ type_kind t = Array \/ type_kind t = Slice).
Proof.
  unfold encodeValue. intros Ht H. rewrite Ht in H. cbn [bind] in H.
  apply bind_Ok in H. destruct H as (sel & Hs & H).
  destruct (snd sel); [|discriminate].
  apply bind_Ok in H. destruct H as (content & _ & H). injection H as <-.
  cbn [set_Content Tag]. revert Hs.
  unfold specialEncoder.
  repeat match goal with
         | |- context [if rtype_eqb ?a ?b then _ else _] =>
             destruct (rtype_eqb a b);
             [intros Hs; injection Hs as <-; cbn; discriminate|]
         end.
  unfold genericEncoder. intros Hs T. split; [reflexivity|].
  destruct (type_kind t); auto;
    try (injection Hs as <-; cbn in T; discriminate).
Qed.

(** [set] on anything but a struct or a sequence fails: a value of a
    designated type, or of a kind other than struct, array and slice,
    never gives a node under a directive with [set]. *)
Theorem set_needs_a_sequence (fuel : nat) (value : Value)
  (opts : fieldOptions) (t : rtype) :
  set opts = true -> defaultValue opts = None ->
  Type_ (getActualType pkg value) = Ok t ->
  specialEncoder pkg ctx t <> None
  \/ (type_kind t <> Struct /\ type_kind t <> Array /\ type_kind t <> Slice) ->
  forall raw, encode pkg ctx fuel value opts <> Ok (Some raw).
Proof.
  intros Hs Hd Ht Hk raw H. rewrite encode_unfold in H. unfold encodeBody in H.
  rewrite Hd in H. cbn [bind fst snd] in H.
  destruct ((optional opts || isSome None) && isEmpty (getActualType pkg value));
    [discriminate|].
  apply bind_Ok in H. destruct H as (r0 & H0 & H).
  apply bind_Ok in H. destruct H as (r1 & H1 & _).
  pose proof (encodeValue_node _ _ _ _ _ _ H0) as [_ C0].
  pose proof (encodeValue_sequence_tag _ _ _ _ _ Ht H0) as S.
  assert (E : negb (Class r0 =? classUniversal) || negb (Tag r0 =? tagSequence)
              = true).
  { rewrite C0. cbn [Z.eqb classUniversal negb orb].
    destruct (Tag r0 =? tagSequence) eqn:T; [|reflexivity].
    apply Z.eqb_eq in T. destruct (S T) as [S1 S2].
    destruct Hk as [Hk|(K1 & K2 & K3)]; [contradiction|].
    destruct S2 as [S2|[S2|S2]]; contradiction. }
  destruct fuel; cbn [applyOptions] in H1; rewrite Hs, E, Ht in H1;
    discriminate.
Qed.

(** In BER mode [set] only changes the tag of the node of a struct, from
    SEQUENCE to SET: with no default, choice, tag or explicit directive the
    node is that of the same options without [set], retagged. *)
Theorem set_only_retags_in_ber (fuel : nat) (value : Value)
  (opts : fieldOptions) (t : rtype) :
  der_encoding ctx = false ->
  set opts = false -> defaultValue opts = None -> choice opts = None ->
  tag opts = None -> explicit opts = false ->
  Type_ (getActualType pkg value) = Ok t ->
  specialEncoder pkg ctx t = None -> type_kind t = Struct ->
  encode pkg ctx fuel value (set_set true opts)
  = (r <- encode pkg ctx fuel value opts ;;
     Ok (option_map (set_Tag tagSet) r)).
Proof.
  intros Hber Hs Hd Hc Ht He Hty Hsp Hk.
  rewrite !encode_unfold. unfold encodeBody.
  cbn [set_set defaultValue optional]. rewrite Hd. bind_norm. cbn [fst snd].
  destruct ((optional opts || isSome None) && isEmpty (getActualType pkg value));
    [reflexivity|].
  unfold encodeValue. rewrite Hty. bind_norm. rewrite Hsp.
  unfold genericEncoder. rewrite Hk. cbn [set_set set]. rewrite Hs.
  bind_norm. cbn [fst snd].
  unfold encodeStructAsSet. rewrite Hber.
  change (children <- getRawValuesFromFields ctx (sub pkg ctx fuel)
                        (getActualType pkg value) ;;
          encodeRawValues pkg children)
    with (encodeStruct pkg ctx (sub pkg ctx fuel) (getActualType pkg value)).
  bind_step.
  destruct fuel; cbn [applyOptions];
    cbn [set_set set choice tag explicit universal application indefinite];
    rewrite Hs, Hc, Ht, He; bind_norm;
    cbn [set_Content set_Constructed set_Tag zeroRaw Class Tag Constructed
           Indefinite Content Z.eqb tagSequence classUniversal negb orb];
    destruct (universal opts), (application opts), (indefinite opts);
    reflexivity.
Qed.

End SetDirective.

(* ================================================================= *)
(** ** The further statements at concrete inputs *)



Lemma indefinite_witness :
  encode Sample.package Sample.ber 1
    (VStruct Sample.structType [(mkField "A" "", VInt Sample.intType 1)])
    (Sample.options "indefinite")
  = Ok (Some (mkRaw classUniversal tagSequence true true
                [Byte.x02; Byte.x01; Byte.x01]))
  /\ Constructed (mkRaw classUniversal tagSequence true true
                    [Byte.x02; Byte.x01; Byte.x01]) = true.
Proof.
  split; [reflexivity|].
  apply (encode_never_marks_a_primitive_indefinite Sample.package Sample.ber 1
           (VStruct Sample.structType [(mkField "A" "", VInt Sample.intType 1)])
           (Sample.options "indefinite")); reflexivity.
Defined.

Lemma implicit_tag_witness :
  tag (Sample.options "optional") = None
  /\ encode Sample.package Sample.ber 0 (VInt Sample.intType 7)
       (set_tag (Some 3) (Sample.options "optional"))
     = Ok (Some (mkRaw classContextSpecific 3 false false [Byte.x07])).
Proof.
  split; [reflexivity|].
  rewrite (implicit_tag_only_retags Sample.package Sample.ber 0
             (VInt Sample.intType 7) (Sample.options "optional") 3
             eq_refl eq_refl eq_refl eq_refl eq_refl eq_refl).
  reflexivity.
Defined.

Lemma universal_class_witness :
  encode Sample.package Sample.ber 0 (VInt Sample.intType 7)
    (Sample.options "optional")
  = Ok (Some (mkRaw classUniversal tagInteger false false [Byte.x07]))
  /\ Class (mkRaw classUniversal tagInteger false false [Byte.x07])
     = classUniversal.
Proof.
  split; [reflexivity|].
  apply (node_is_universal_without_tagging_directive Sample.package Sample.ber 0
           (VInt Sample.intType 7) (Sample.options "optional"));
    reflexivity.
Defined.



Lemma set_needs_a_sequence_witness :
  set (Sample.options "set") = true
  /\ type_kind Sample.intType <> Struct
  /\ encode Sample.package Sample.ber 0 (VInt Sample.intType 7)
       (Sample.options "set")
     = Err (SyntaxError "Go type '%s' does not accept the flag 'set'"
              [ArgT Sample.intType])
  /\ forall raw,
       encode Sample.package Sample.ber 0 (VInt Sample.intType 7)
         (Sample.options "set") <> Ok (Some raw).
Proof.
  split; [reflexivity|]. split; [discriminate|]. split; [reflexivity|].
  apply (set_needs_a_sequence Sample.package Sample.ber 0 (VInt Sample.intType 7)
           (Sample.options "set") Sample.intType eq_refl eq_refl eq_refl).
  right. repeat split; discriminate.
Defined.

Lemma set_only_retags_witness :
  der_encoding Sample.ber = false
  /\ encode Sample.package Sample.ber 1 Sample.pairAB (set_set true zeroOptions)
     = Ok (Some (mkRaw classUniversal tagSet true false
                   [Byte.x02; Byte.x01; Byte.x01; Byte.x02; Byte.x01; Byte.x02])).
Proof.
  split; [reflexivity|].
  rewrite (set_only_retags_in_ber Sample.package Sample.ber 1 Sample.pairAB
             zeroOptions (TBase "AB" Struct)
             eq_refl eq_refl eq_refl eq_refl eq_refl eq_refl eq_refl eq_refl
             eq_refl).
  reflexivity.
Defined.

(* ================================================================= *)
(** ** The options that the encoder does not read *)

Section UnreadOptions.

Variable pkg : Package.
Variable ctx : Context.

Lemma genericEncoder_frame (enc : Value -> fieldOptions -> result (option rawValue))
  (t : rtype) (raw : rawValue) (o1 o2 : fieldOptions) :
  set o1 = set o2 -> choice o1 = choice o2 -> choices o1 = choices o2 ->
  genericEncoder pkg ctx enc t o1 raw = genericEncoder pkg ctx enc t o2 raw.
Proof.
  intros Hs Hc Hcs. unfold genericEncoder. rewrite Hs, Hc.
  destruct (type_kind t); try reflexivity;
    (destruct (Elem t) as [e|]; [|reflexivity];
     destruct (type_kind e); try reflexivity;
     destruct (choice o2) as [name|]; try reflexivity;
     rewrite !bind_Ok_l, Hcs; reflexivity).
Qed.

Lemma applyOptions_frame (fuel : nat) (value : Value) (raw : rawValue)
  (o1 o2 : fieldOptions) :
  set o1 = set o2 -> choice o1 = choice o2 -> explicit o1 = explicit o2 ->
  tag o1 = tag o2 -> universal o1 = universal o2 ->
  application o1 = application o2 -> indefinite o1 = indefinite o2 ->
  applyOptions pkg ctx fuel value raw o1 = applyOptions pkg ctx fuel value raw o2.
Proof.
  intros Hs Hc He Ht Hu Ha Hi.
  destruct fuel; cbn [applyOptions]; rewrite Hs, Hc, He, Ht, Hu, Ha, Hi;
    reflexivity.
Qed.

Lemma encodeValue_frame
  (enc : Value -> fieldOptions -> result (option rawValue))
  (value : Value) (o1 o2 : fieldOptions) :
  set o1 = set o2 -> choice o1 = choice o2 -> choices o1 = choices o2 ->
  encodeValue pkg ctx enc value o1 = encodeValue pkg ctx enc value o2.
Proof.
  intros Hs Hc Hcs. unfold encodeValue.
  destruct (Type_ value) as [t| | |]; try reflexivity.
  rewrite !bind_Ok_l.
  destruct (specialEncoder pkg ctx t) as [[? ?]|]; [reflexivity|].
  rewrite (genericEncoder_frame enc t zeroRaw o1 o2 Hs Hc Hcs). reflexivity.
Qed.

(** [encodeValue] reads three options only, [set], [choice] and
    [choices]: two directive sets that agree on them give the same node,
    or the same failure, for every value. *)
Theorem encodeValue_reads_set_choice_choices
  (enc : Value -> fieldOptions -> result (option rawValue))
  (value : Value) (o1 o2 : fieldOptions) :
  set o1 = set o2 -> choice o1 = choice o2 -> choices o1 = choices o2 ->
  encodeValue pkg ctx enc value o1 = encodeValue pkg ctx enc value o2.
Proof.
  intros Hs Hc Hcs. unfold encodeValue.
  destruct (Type_ value) as [t| | |]; try reflexivity.
  rewrite !bind_Ok_l.
  destruct (specialEncoder pkg ctx t) as [[? ?]|]; [reflexivity|].
  rewrite (genericEncoder_frame enc t zeroRaw o1 o2 Hs Hc Hcs). reflexivity.
Qed.

(** The main encode function reads neither [unique] nor [variant]:
    they matter for a field of a struct only, where
    [getRawValuesFromFields] reads them. Without a default value, the
    outcome is the same whatever these two options are. *)
Theorem encode_reads_neither_unique_nor_variant (fuel : nat) (value : Value)
  (opts : fieldOptions) (u : bool) (v : option string) :
  defaultValue opts = None ->
  encode pkg ctx fuel value (set_unique u (set_variant v opts))
  = encode pkg ctx fuel value opts.
Proof.
  intros Hd. rewrite !encode_unfold. unfold encodeBody.
  cbn [defaultValue optional set_unique set_variant]. rewrite Hd.
  rewrite !bind_Ok_l. cbn [fst snd].
  destruct (optional opts || isSome None) eqn:E;
    destruct (isEmpty (getActualType pkg value)); cbn [andb]; try reflexivity;
    rewrite (encodeValue_frame (sub pkg ctx fuel)
               (getActualType pkg value)
               (set_unique u (set_variant v opts)) opts eq_refl eq_refl eq_refl);
    destruct (encodeValue pkg ctx (sub pkg ctx fuel) (getActualType pkg value) opts)
      as [r| | |];
    try reflexivity; rewrite !bind_Ok_l;
    rewrite (applyOptions_frame fuel (getActualType pkg value) r
               (set_unique u (set_variant v opts)) opts
               eq_refl eq_refl eq_refl eq_refl eq_refl eq_refl eq_refl);
    reflexivity.
Qed.

(** On a value that is not empty, [optional] and [default] have no
    effect: the outcome of the main encode function is the same whatever
    these two options are, in BER and in DER. *)
Theorem optional_and_default_are_ignored_on_a_present_value (fuel : nat)
  (value : Value) (opts : fieldOptions) (b : bool) (d : option Z) :
  isEmpty (getActualType pkg value) = false ->
  encode pkg ctx fuel value (set_optional b (set_defaultValue d opts))
  = encode pkg ctx fuel value opts.
Proof.
  intros Hne. rewrite !encode_unfold. unfold encodeBody.
  cbn [defaultValue optional set_optional set_defaultValue]. rewrite Hne.
  cbn [andb]. 
  assert (P : forall (o : option Z) (k : Value * bool -> result (option rawValue)),
            (ve <- match o with
                   | Some _ => Ok (getActualType pkg value, false)
                   | None => Ok (getActualType pkg value, false)
                   end ;; k ve) = k (getActualType pkg value, false))
    by (intros [?|] k; apply bind_Ok_l).
  rewrite !P. cbn [fst snd]. rewrite !andb_false_r.
  rewrite (encodeValue_frame (sub pkg ctx fuel)
             (getActualType pkg value)
             (set_optional b (set_defaultValue d opts)) opts
             eq_refl eq_refl eq_refl).
  destruct (encodeValue pkg ctx (sub pkg ctx fuel) (getActualType pkg value) opts)
    as [r| | |]; try reflexivity; rewrite !bind_Ok_l.
  rewrite (applyOptions_frame fuel (getActualType pkg value) r
             (set_optional b (set_defaultValue d opts)) opts
             eq_refl eq_refl eq_refl eq_refl eq_refl eq_refl eq_refl).
  reflexivity.
Qed.

End UnreadOptions.

Lemma encodeValue_reads_witness :
  set (Sample.options "explicit,tag:3") = set zeroOptions
  /\ encodeValue Sample.package Sample.ber (sub Sample.package Sample.ber 0)
       (VInt Sample.intType 7) (Sample.options "explicit,tag:3")
     = Ok (mkRaw classUniversal tagInteger false false [Byte.x07]).
Proof.
  split; [reflexivity|].
  rewrite (encodeValue_reads_set_choice_choices Sample.package Sample.ber
             (sub Sample.package Sample.ber 0) (VInt Sample.intType 7)
             (Sample.options "explicit,tag:3") zeroOptions
             eq_refl eq_refl eq_refl).
  reflexivity.
Defined.

Lemma unique_and_variant_witness :
  defaultValue (Sample.options "tag:3") = None
  /\ encode Sample.package Sample.ber 0 (VInt Sample.intType 7)
       (set_unique true (set_variant (Some "kind") (Sample.options "tag:3")))
     = Ok (Some (mkRaw classContextSpecific 3 false false [Byte.x07])).
Proof.
  split; [reflexivity|].
  rewrite (encode_reads_neither_unique_nor_variant Sample.package Sample.ber 0
             (VInt Sample.intType 7) (Sample.options "tag:3") true (Some "kind")
             eq_refl).
  reflexivity.
Defined.

Lemma present_value_witness :
  isEmpty (getActualType Sample.package (VInt Sample.intType 7)) = false
  /\ encode Sample.package Sample.der 0 (VInt Sample.intType 7)
       (set_optional true (set_defaultValue (Some 5) zeroOptions))
     = Ok (Some (mkRaw classUniversal tagInteger false false [Byte.x07])).
Proof.
  split; [reflexivity|].
  rewrite (optional_and_default_are_ignored_on_a_present_value Sample.package
             Sample.der 0 (VInt Sample.intType 7) zeroOptions true (Some 5)
             eq_refl).
  reflexivity.
Defined.

Section ClassFlags.

Variable pkg : Package.
Variable ctx : Context.

Lemma applyOptions_last_steps (fuel : nat) (value : Value)
  (raw0 raw : rawValue) (opts : fieldOptions) :
  applyOptions pkg ctx fuel value raw0 opts = Ok raw ->
  exists c,
    let r := match tag opts with
             | Some t => set_Tag (uint t) (set_Class classContextSpecific c)
             | None => c
             end in
    let r := if universal opts then set_Class classUniversal r else r in
    let r := if application opts then set_Class classApplication r else r in
    raw = r \/ raw = set_Indefinite true r.
Proof.
  destruct fuel; cbn [applyOptions]; intros H;
    apply bind_Ok in H; destruct H as (a & _ & H);
    apply bind_Ok in H; destruct H as (b & _ & H);
    apply bind_Ok in H; destruct H as (c & _ & H);
    exists c; cbv zeta in *;
    destruct (indefinite opts);
    try (destruct (negb (Constructed _)); [destruct (Type_ value); discriminate|]);
    injection H as <-; auto.
Qed.

(** The class flags are applied last, so they decide the class of the
    node whatever the type, the choice entry and the wrapping are:
    [application] gives the application class, also beside [universal];
    [universal] alone gives the universal class; a tag without either
    gives the context-specific class. The tag number is the unsigned value
    of [tag] in all three cases. *)
Theorem class_flags_decide_the_class (fuel : nat) (value : Value)
  (opts : fieldOptions) (raw : rawValue) :
  encode pkg ctx fuel value opts = Ok (Some raw) ->
  (application opts = true -> Class raw = classApplication)
  /\ (application opts = false -> universal opts = true ->
      Class raw = classUniversal)
  /\ (forall t, tag opts = Some t ->
      Tag raw = uint t
      /\ (application opts = false -> universal opts = false ->
          Class raw = classContextSpecific)).
Proof.
  rewrite encode_unfold. unfold encodeBody. intros H.
  apply bind_Ok in H. destruct H as (ve & _ & H).
  destruct ((optional opts || isSome (defaultValue opts)) && snd ve);
    [discriminate|].
  apply bind_Ok in H. destruct H as (r0 & _ & H).
  apply bind_Ok in H. destruct H as (r1 & H1 & H). injection H as <-.
  apply applyOptions_last_steps in H1. destruct H1 as (c & H1). cbv zeta in H1.
  repeat split.
  - intros Ha. rewrite Ha in H1. destruct H1 as [-> | ->]; reflexivity.
  - intros Ha Hu. rewrite Ha, Hu in H1. destruct H1 as [-> | ->]; reflexivity.
  - rewrite H in H1.
    destruct (universal opts), (application opts), H1 as [-> | ->]; reflexivity.
  - intros Ha Hu. rewrite H, Ha, Hu in H1.
    destruct H1 as [-> | ->]; reflexivity.
Qed.

End ClassFlags.

Lemma class_flags_witness :
  encode Sample.package Sample.ber 0 (VInt Sample.intType 7)
    (Sample.options "universal,application,tag:3")
  = Ok (Some (mkRaw classApplication 3 false false [Byte.x07]))
  /\ Class (mkRaw classApplication 3 false false [Byte.x07]) = classApplication.
Proof.
  split; [reflexivity|].
  apply (class_flags_decide_the_class Sample.package Sample.ber 0
           (VInt Sample.intType 7)
           (Sample.options "universal,application,tag:3"));
    reflexivity.
Defined.
